(** * Student Management API: the CRUD handlers of [main.py] over the
      [users] table of [database.py]

    The development embeds the five user handlers ([create_user],
    [get_users], [get_user], [update_user], [delete_user]) as functions in
    a small state-and-exception monad over the committed contents of the
    [users] table, and the request layer in front of them (validation of
    the JSON body against [UserCreate], mapping of exceptions to status
    codes).

    Modelling decisions:
    - the engine is SQLite ([SQLALCHEMY_DATABASE_URL]); a table scan
      without ORDER BY walks the table by rowid, [id] is the rowid
      ([Integer], [primary_key=True]), a fresh rowid is one more than the
      largest in use (1 in an empty table) and a random unused one when
      the largest in use is the largest there is, [email] carries a UNIQUE
      index, LIMIT with a negative value means no bound and OFFSET with a
      negative value means zero;
    - Python integers are unbounded, so integers are [Z]; the driver
      refuses to bind an integer outside the 64 bits of the engine's
      INTEGER and raises OverflowError before the statement is sent, so
      that every rowid in the table is inside them;
    - strings are the bytes of their UTF-8 encoding, compared byte by
      byte as the UNIQUE index does;
    - the session writes the attributes that changed: an update that
      changes nothing sends no UPDATE;
    - request bodies are validated by the [BaseModel] classes of
      [database.py], declared without a strict configuration: a value of
      the annotated type is taken as it is, a value of another type goes
      through the library's conversion, kept as a parameter of the
      request layer; the report of a refused body echoes the refused
      input, and cannot be sent when that input holds a number that is
      not finite;
    - requests are served one after the other (one session per request,
      [autoflush=False]): the state is the committed table, and a commit
      that fails leaves it as it was;
    - the environment gives, for each statement sent to the engine,
      whether the engine fails it (locked file, full disk), what
      [datetime.utcnow] reads when it is prepared, and the random values
      the engine draws while it runs. *)

From Stdlib Require Import ZArith List Ascii String Bool Lia.
Import ListNotations.
Local Open Scope string_scope.
Local Open Scope list_scope.
Local Open Scope Z_scope.

(** ** Data model ([database.py]) *)

(** [class User(Base)]: a row of [users]. *)
Record User := mkUser {
  id : Z;
  name : string;
  email : string;
  age : Z;
  created_at : Z
}.

(** [class UserCreate(UserBase)]: a validated request body. *)
Record UserCreate := mkUserCreate {
  uc_name : string;
  uc_email : string;
  uc_age : Z
}.

(** [class UserResponse(UserBase)], with [from_attributes = True]. *)
Record UserResponse := mkUserResponse {
  ur_name : string;
  ur_email : string;
  ur_age : Z;
  ur_id : Z;
  ur_created_at : Z
}.

(** [UserResponse.model_validate(db_user)]: reads the five attributes. *)
Definition model_validate (db_user : User) : UserResponse :=
  mkUserResponse (name db_user) (email db_user) (age db_user)
                 (id db_user) (created_at db_user).

(** ** The integers of the engine *)

(** The largest rowid, and the largest INTEGER: 2^63 - 1. *)
Definition max_rowid : Z := 9223372036854775807.

(** The integers the driver binds as a parameter of a statement. *)
Definition sqlite_int (z : Z) : bool := (- max_rowid - 1 <=? z) && (z <=? max_rowid).

(** A row the engine can hold: its rowid is one of its integers. *)
Definition storable (r : User) : bool := sqlite_int (id r).

(** ** The world a request runs in *)

(** [rows]: the committed table, in rowid order, every row of which the
    engine can hold ([rows_storable]).  [faults]: the environment's
    schedule, [true] failing the next statement.  [round_trips]:
    statements sent so far.  [clock n]: what [datetime.utcnow] reads when
    statement number [n] is prepared.  [randomness n k]: the [k]-th random
    value the engine draws while it runs statement number [n]. *)
Record world := mkWorld {
  rows : list User;
  rows_storable : forallb storable rows = true;
  clock : nat -> Z;
  faults : list bool;
  round_trips : nat;
  randomness : nat -> nat -> Z
}.

(** What [datetime.utcnow] reads for the next statement. *)
Definition utcnow (w : world) : Z := clock w (round_trips w).

(** The rows of a list that the engine can hold are rows it can hold. *)
Fixpoint filter_storable (t : list User)
    : forallb storable (filter storable t) = true :=
  match t with
  | [] => eq_refl
  | r :: t' =>
      (if storable r as b
          return storable r = b ->
                 forallb storable (if b then r :: filter storable t'
                                   else filter storable t') = true
       then fun Hr => f_equal2 andb Hr (filter_storable t')
       else fun _ => filter_storable t') eq_refl
  end.

(** The table written: the rows that the engine can hold, which the
    rows the handlers write all are. *)
Definition with_rows (t : list User) (w : world) : world :=
  mkWorld (filter storable t) (filter_storable t)
          (clock w) (faults w) (round_trips w) (randomness w).

(** Exceptions seen by the handlers. *)
Inductive exn :=
| HTTPException (status_code : Z) (detail : string)
| IntegrityError
| OperationalError
| InvalidRequestError
| OverflowError.

(** A computation reads and writes the world and returns or raises. *)
Definition M (A : Type) : Type := world -> world * (exn + A).

Definition ret {A} (a : A) : M A := fun w => (w, inr a).

Definition raise {A} (e : exn) : M A := fun w => (w, inl e).

Definition bind {A B} (m : M A) (k : A -> M B) : M B :=
  fun w => match m w with
           | (w', inr a) => k a w'
           | (w', inl e) => (w', inl e)
           end.

(** [try: m except Exception as e: h e]. *)
Definition try_except {A} (m : M A) (h : exn -> M A) : M A :=
  fun w => match m w with
           | (w', inr a) => (w', inr a)
           | (w', inl e) => h e w'
           end.

Declare Scope db_scope.
Delimit Scope db_scope with db.
Notation "x <- m ;; k" := (bind m (fun x => k))
  (at level 100, m at next level, right associativity) : db_scope.
Notation "m ;;; k" := (bind m (fun _ => k))
  (at level 100, right associativity) : db_scope.
Local Open Scope db_scope.

(** ** The table *)

Definition has_id (user_id : Z) (r : User) : bool := id r =? user_id.

Definition has_email (e : string) (r : User) : bool := String.eqb (email r) e.

(** [SELECT ... WHERE users.id = ? LIMIT 1]. *)
Definition first_by_id (user_id : Z) (t : list User) : option User :=
  find (has_id user_id) t.

(** One more than the largest rowid in use, 1 in an empty table. *)
Definition next_rowid (t : list User) : Z :=
  match t with
  | [] => 1
  | r :: t' => fold_right Z.max (id r) (map id t') + 1
  end.

(** A random rowid as the engine makes one from a random value: the low
    62 bits, plus one. *)
Definition random_rowid (x : Z) : Z := Z.land x (Z.shiftr max_rowid 1) + 1.

(** The first of [tries] random rowids, from the [k]-th value on, that no
    row has. *)
Fixpoint first_unused (t : list User) (random : nat -> Z) (tries k : nat)
    : option Z :=
  match tries with
  | O => None
  | S tries' =>
      let v := random_rowid (random k) in
      if existsb (has_id v) t then first_unused t random tries' (S k)
      else Some v
  end.

(** The rowid given to a row inserted without one: one more than the
    largest in use; when the largest in use is [max_rowid], a random
    unused one, and none (the table is reported full) after a hundred
    tries. *)
Definition new_rowid (w : world) : option Z :=
  if next_rowid (rows w) <=? max_rowid then Some (next_rowid (rows w))
  else first_unused (rows w) (randomness w (round_trips w)) 100 0.

(** Position of a new row in the rowid order. *)
Fixpoint place (r : User) (t : list User) : list User :=
  match t with
  | [] => [r]
  | x :: t' => if id r <? id x then r :: t else x :: place r t'
  end.

(** The UNIQUE index on [email]: is the key in use by a row other than
    the one written? *)
Definition email_taken (e : string) (t : list User) : bool :=
  existsb (has_email e) t.

Definition email_taken_by_other (pk : Z) (e : string) (t : list User) : bool :=
  existsb (fun r => negb (has_id pk r) && has_email e r) t.

(** [UPDATE users SET name=?, email=?, age=? WHERE users.id = ?]. *)
Definition set_fields (user : UserCreate) (r : User) : User :=
  mkUser (id r) (uc_name user) (uc_email user) (uc_age user) (created_at r).

Definition update_rows (pk : Z) (user : UserCreate) (t : list User) : list User :=
  map (fun r => if has_id pk r then set_fields user r else r) t.

(** Do the three [setattr] leave the fetched object as it was? *)
Definition unchanged (db_user : User) (user : UserCreate) : bool :=
  String.eqb (name db_user) (uc_name user)
  && String.eqb (email db_user) (uc_email user)
  && (age db_user =? uc_age user).

(** [DELETE FROM users WHERE users.id = ?]. *)
Definition delete_rows (pk : Z) (t : list User) : list User :=
  filter (fun r => negb (has_id pk r)) t.

(** [LIMIT ? OFFSET ?] as SQLite reads them. *)
Definition sql_offset {A} (n : Z) (l : list A) : list A := skipn (Z.to_nat n) l.

Definition sql_limit {A} (n : Z) (l : list A) : list A :=
  if n <? 0 then l else firstn (Z.to_nat n) l.

(** ** The session ([db: Session]) *)

(** One statement sent to the engine. *)
Definition sent (w : world) : world :=
  mkWorld (rows w) (rows_storable w) (clock w) (tl (faults w))
          (S (round_trips w)) (randomness w).

Definition round_trip : M unit :=
  fun w =>
    match faults w with
    | true :: _ => (sent w, inl OperationalError)
    | _ => (sent w, inr tt)
    end.

(** [db.query(User).filter(User.id == user_id).first()]. *)
Definition query_first (user_id : Z) : M (option User) :=
  fun w =>
    if sqlite_int user_id
    then (round_trip ;;;
          fun w' => (w', inr (first_by_id user_id (rows w')))) w
    else (w, inl OverflowError).

(** [db.query(User).offset(skip).limit(limit).all()]. *)
Definition query_offset_limit (skip limit : Z) : M (list User) :=
  fun w =>
    if sqlite_int skip && sqlite_int limit
    then (round_trip ;;;
          fun w' => (w', inr (sql_limit limit (sql_offset skip (rows w'))))) w
    else (w, inl OverflowError).

(** [db.add(User(name=.., email=.., age=..)); db.commit()]: the INSERT,
    with [created_at] defaulting to [datetime.utcnow]; returns the primary
    key the row received.  A failed commit leaves the table as it was. *)
Definition commit_add (user : UserCreate) : M Z :=
  fun w =>
    if sqlite_int (uc_age user)
    then (round_trip ;;;
          fun w' =>
            match new_rowid w with
            | None => (w', inl OperationalError)
            | Some pk =>
                if email_taken (uc_email user) (rows w')
                then (w', inl IntegrityError)
                else
                  let r := mkUser pk (uc_name user) (uc_email user)
                                  (uc_age user) (utcnow w) in
                  (with_rows (place r (rows w')) w', inr pk)
            end) w
    else (w, inl OverflowError).

(** The three [setattr] on the fetched object, then [db.commit()]: no
    statement when nothing changed, else the UPDATE of the attributes
    that changed. *)
Definition commit_update (db_user : User) (user : UserCreate) : M unit :=
  fun w =>
    if unchanged db_user user then (w, inr tt)
    else if negb (age db_user =? uc_age user) && negb (sqlite_int (uc_age user))
    then (w, inl OverflowError)
    else (round_trip ;;;
          fun w' =>
            if negb (String.eqb (email db_user) (uc_email user))
               && email_taken_by_other (id db_user) (uc_email user) (rows w')
            then (w', inl IntegrityError)
            else (with_rows (update_rows (id db_user) user (rows w')) w', inr tt)) w.

(** [db.delete(db_user); db.commit()]. *)
Definition commit_delete (db_user : User) : M unit :=
  round_trip ;;;
  fun w => (with_rows (delete_rows (id db_user) (rows w)) w, inr tt).

(** [db.refresh(db_user)]: reloads the row by primary key. *)
Definition refresh (pk : Z) : M User :=
  round_trip ;;;
  fun w => match first_by_id pk (rows w) with
           | Some r => (w, inr r)
           | None => (w, inl InvalidRequestError)
           end.

(** ** The handlers ([main.py]) *)

Definition create_user (user : UserCreate) : M UserResponse :=
  try_except
    (pk <- commit_add user ;;
     db_user <- refresh pk ;;
     ret (model_validate db_user))
    (fun _ => raise (HTTPException 400 "Failed to create user")).

Definition get_users (skip limit : Z) : M (list UserResponse) :=
  users <- query_offset_limit skip limit ;;
  ret (map model_validate users).

Definition get_user (user_id : Z) : M UserResponse :=
  user <- query_first user_id ;;
  match user with
  | None => raise (HTTPException 404 "User not found")
  | Some user => ret (model_validate user)
  end.

Definition update_user (user_id : Z) (user : UserCreate) : M UserResponse :=
  db_user <- query_first user_id ;;
  match db_user with
  | None => raise (HTTPException 404 "User not found")
  | Some db_user =>
      commit_update db_user user ;;;
      db_user' <- refresh (id db_user) ;;
      ret (model_validate db_user')
  end.

Definition delete_user (user_id : Z) : M string :=
  db_user <- query_first user_id ;;
  match db_user with
  | None => raise (HTTPException 404 "User not found")
  | Some db_user =>
      commit_delete db_user ;;;
      ret "User deleted successfully"
  end.

(** ** Responses *)

Inductive content :=
| user_json (user : UserResponse)
| users_json (users : list UserResponse)
| message_json (message : string)
| detail_json (detail : string)
| validation_errors
| plain_text (text : string).

Record response := mkResponse {
  status_code : Z;
  body : content
}.

(** What the framework sends for the outcome of a handler: the returned
    value with 200, an [HTTPException] with its own status and detail, any
    other exception as the server's plain 500. *)
Definition respond {A} (encode : A -> content) (r : exn + A) : response :=
  match r with
  | inr a => mkResponse 200 (encode a)
  | inl (HTTPException s d) => mkResponse s (detail_json d)
  | inl _ => mkResponse 500 (plain_text "Internal Server Error")
  end.

Definition serve {A} (encode : A -> content) (m : M A) : world -> world * response :=
  fun w => let (w', r) := m w in (w', respond encode r).

(** A call of a handler with validated arguments. *)
Inductive call :=
| CreateUser (user : UserCreate)
| GetUsers (skip limit : Z)
| GetUser (user_id : Z)
| UpdateUser (user_id : Z) (user : UserCreate)
| DeleteUser (user_id : Z).

Definition exec (c : call) : world -> world * response :=
  match c with
  | CreateUser user => serve user_json (create_user user)
  | GetUsers skip limit => serve users_json (get_users skip limit)
  | GetUser user_id => serve user_json (get_user user_id)
  | UpdateUser user_id user => serve user_json (update_user user_id user)
  | DeleteUser user_id => serve message_json (delete_user user_id)
  end.

(** Requests served one after the other. *)
Fixpoint run (cs : list call) (w : world) : world * list response :=
  match cs with
  | [] => (w, [])
  | c :: cs' =>
      let (w1, r) := exec c w in
      let (w2, rs) := run cs' w1 in
      (w2, r :: rs)
  end.

(** The id a response reports as created. *)
Definition created_id (c : call) (r : response) : option Z :=
  match c, body r with
  | CreateUser _, user_json u => if status_code r =? 200 then Some (ur_id u) else None
  | _, _ => None
  end.

(** The ids handed out by the creations that succeeded. *)
Fixpoint issued (cs : list call) (rs : list response) : list Z :=
  match cs, rs with
  | c :: cs', r :: rs' =>
      match created_id c r with
      | Some i => i :: issued cs' rs'
      | None => issued cs' rs'
      end
  | _, _ => []
  end.


(** ** Request bodies and their validation *)

(** A request body as the framework decoded it; a body that it cannot
    decode (text that is no JSON, an integer literal longer than the
    interpreter reads) is answered before validation and is no value of
    this type.  An integer literal is decoded as an integer whatever its
    size.  A number written with a fraction or an exponent is decoded as
    a float: [JFloat m e] is the finite float [m * 2^e], [JNonFinite]
    stands for the floats that are not finite (what [1e400] is decoded
    to).  A string is the bytes of its UTF-8 encoding. *)
Local Unset Elimination Schemes.
Inductive json :=
| JNull
| JBool (b : bool)
| JInt (z : Z)
| JFloat (m e : Z)
| JNonFinite
| JStr (s : string)
| JArr (items : list json)
| JObj (members : list (string * json)).
Local Set Elimination Schemes.

(** Reading a key of a decoded object: the last occurrence wins. *)
Definition member (key : string) (members : list (string * json)) : option json :=
  fold_left (fun found kv => if String.eqb (fst kv) key then Some (snd kv) else found)
            members None.

(** Does the value hold a float that is not finite? *)
Fixpoint non_finite (v : json) : bool :=
  match v with
  | JNonFinite => true
  | JArr items => existsb non_finite items
  | JObj members =>
      existsb (fun kv => match kv with (_, v') => non_finite v' end) members
  | _ => false
  end.

Inductive request :=
| POST_users (payload : json)
| GET_users (skip limit : option Z)
| GET_users_id (user_id : Z)
| PUT_users_id (user_id : Z) (payload : json)
| DELETE_users_id (user_id : Z).

Definition unprocessable : response := mkResponse 422 validation_errors.

Definition default (d : Z) (o : option Z) : Z :=
  match o with
  | Some z => z
  | None => d
  end.

Section Validation.

(** The conversion the validation library applies, in its default mode,
    to a value given for an [int] field that is not a JSON integer. *)
Variable lax_int : json -> option Z.

(** [name: str], [email: str]: a JSON string, whatever its length; no
    other JSON value is converted to a string. *)
Definition validate_str (v : json) : option string :=
  match v with
  | JStr s => Some s
  | _ => None
  end.

(** [age: int]: a JSON integer, or what the conversion makes of another
    value. *)
Definition validate_int (v : json) : option Z :=
  match v with
  | JInt z => Some z
  | _ => lax_int v
  end.

(** [class UserBase(BaseModel)]: three required fields. *)
Definition validate_UserCreate (payload : json) : option UserCreate :=
  match payload with
  | JObj members =>
      match member "name" members, member "email" members, member "age" members with
      | Some n, Some e, Some a =>
          match validate_str n, validate_str e, validate_int a with
          | Some n', Some e', Some a' => Some (mkUserCreate n' e' a')
          | _, _, _ => None
          end
      | _, _, _ => None
      end
  | _ => None
  end.

(** The input that the report of a refused field echoes: the whole body
    for a field that is missing, the value for one that is refused. *)
Definition refused_input {A} (payload : json) (found : option json)
    (validate : json -> option A) : list json :=
  match found with
  | None => [payload]
  | Some v => match validate v with
              | Some _ => []
              | None => [v]
              end
  end.

(** The inputs echoed by the report of a body: one for each field in
    error, the body itself when it is not an object. *)
Definition error_inputs (payload : json) : list json :=
  match payload with
  | JObj members =>
      refused_input payload (member "name" members) validate_str
      ++ refused_input payload (member "email" members) validate_str
      ++ refused_input payload (member "age" members) validate_int
  | _ => [payload]
  end.

(** The answer to a refused body: 422 with the report, and the server's
    plain 500 when the report cannot be written as JSON because an
    echoed input holds a float that is not finite. *)
Definition validation_response (payload : json) : response :=
  if existsb non_finite (error_inputs payload)
  then mkResponse 500 (plain_text "Internal Server Error")
  else unprocessable.

(** The routes of [app]: a body that fails validation is answered
    before the handler is called. *)
Definition app (rq : request) : world -> world * response :=
  match rq with
  | POST_users payload =>
      match validate_UserCreate payload with
      | Some user => exec (CreateUser user)
      | None => fun w => (w, validation_response payload)
      end
  | GET_users skip limit => exec (GetUsers (default 0 skip) (default 100 limit))
  | GET_users_id user_id => exec (GetUser user_id)
  | PUT_users_id user_id payload =>
      match validate_UserCreate payload with
      | Some user => exec (UpdateUser user_id user)
      | None => fun w => (w, validation_response payload)
      end
  | DELETE_users_id user_id => exec (DeleteUser user_id)
  end.

End Validation.

(** A conversion to run examples with.  It agrees with the library on
    the values it accepts: a boolean (as 0 or 1), a float with no
    fractional part inside the 64 bits, a string of decimal digits with
    an optional sign (["25"] as [25], ["-5"] as [-5]). *)
Definition digit (c : Ascii.ascii) : option Z :=
  let n := Z.of_nat (Ascii.nat_of_ascii c) in
  if (48 <=? n) && (n <=? 57) then Some (n - 48) else None.

Fixpoint digits (acc : Z) (s : string) : option Z :=
  match s with
  | EmptyString => Some acc
  | String c s' =>
      match digit c with
      | Some d => digits (10 * acc + d) s'
      | None => None
      end
  end.

Definition unsigned_digits (s : string) : option Z :=
  match s with
  | EmptyString => None
  | String _ _ => digits 0 s
  end.

Definition signed_digits (s : string) : option Z :=
  match s with
  | String "-"%char s' => option_map Z.opp (unsigned_digits s')
  | String "+"%char s' => unsigned_digits s'
  | _ => unsigned_digits s
  end.

Definition float_as_int (m e : Z) : option Z :=
  let within z := if (- max_rowid - 1 <? z) && (z <=? max_rowid) then Some z else None in
  if 0 <=? e then within (m * 2 ^ e)
  else if m mod 2 ^ (- e) =? 0 then within (m / 2 ^ (- e))
  else None.

Definition lax_int_digits (v : json) : option Z :=
  match v with
  | JBool b => Some (if b then 1 else 0)
  | JFloat m e => float_as_int m e
  | JStr s => signed_digits s
  | _ => None
  end.




(** ** What the specification's words say, for comparison *)




(** ** Invariants of the table *)

Fixpoint ascending (l : list Z) : Prop :=
  match l with
  | [] => True
  | x :: l' => (forall y, In y l' -> x < y) /\ ascending l'
  end.

(** Rowids ascend along the table and no two rows share an email. *)
Definition well_formed (t : list User) : Prop :=
  ascending (map id t) /\ NoDup (map email t).

Definition no_faults (w : world) : Prop := faults w = [].

(** A computation that leaves an engine that answers answering. *)
Definition calm {A} (m : M A) : Prop :=
  forall w, no_faults w -> no_faults (fst (m w)).

(** Did the engine fail a statement between [w] and [w']?  The statements
    sent in between are counted by [round_trips]; each consumed one entry
    of the schedule of [w]. *)
Definition statement_failed (w w' : world) : bool :=
  existsb (fun failed => failed)
          (firstn (round_trips w' - round_trips w) (faults w)).

(** A world whose engine fails the next statement. *)
Definition failing (w : world) : world :=
  mkWorld (rows w) (rows_storable w) (clock w) (true :: faults w)
          (round_trips w) (randomness w).


(** The JSON body FastAPI sends for [response_model=UserResponse]: the
    fields in the order of the class, [created_at] as the text that
    [isoformat] gives for the time. *)
Definition json_of_response (isoformat : Z -> string) (r : UserResponse) : json :=
  JObj [("name", JStr (ur_name r)); ("email", JStr (ur_email r));
        ("age", JInt (ur_age r)); ("id", JInt (ur_id r));
        ("created_at", JStr (isoformat (ur_created_at r)))].

(** ** Sample data *)

Definition john : User := mkUser 1 "John Doe" "john@example.com" 25 1700000000.

Definition ann : User := mkUser 2 "Ann" "ann@example.com" 31 1700000005.

Definition jane_doe : UserCreate := mkUserCreate "Jane Doe" "jane@example.com" 30.

Definition john_doe : UserCreate := mkUserCreate "John Doe" "john@example.com" 25.

(** A clock that advances by one second from a statement to the next. *)
Definition sample_clock (n : nat) : Z := 1700000000 + Z.of_nat n.

Definition empty_world : world :=
  mkWorld [] eq_refl sample_clock [] 0 (fun _ _ => 0).

Definition two_users : world :=
  mkWorld [john; ann] eq_refl sample_clock [] 9 (fun _ _ => 0).








(** ** Facts about the table *)

Lemma max_id_bound (t : list User) (b : Z) (x : User) :
  In x t -> id x <= fold_right Z.max b (map id t).
Proof.
  induction t as [|r t IH]; simpl; intros Hin; [contradiction|].
  destruct Hin as [->|Hin]; [lia|].
  specialize (IH Hin). lia.
Qed.

Lemma max_id_base (t : list User) (b : Z) : b <= fold_right Z.max b (map id t).
Proof. induction t as [|r t IH]; simpl; lia. Qed.

(** A fresh rowid is above every rowid in use. *)
Lemma next_rowid_above (t : list User) (x : User) :
  In x t -> id x < next_rowid t.
Proof.
  destruct t as [|r t]; simpl; [contradiction|].
  intros [->|Hin].
  - pose proof (max_id_base t (id x)). lia.
  - pose proof (max_id_bound t (id r) x Hin). lia.
Qed.

Lemma first_by_id_place (r : User) (t : list User) :
  (forall x, In x t -> id x <> id r) ->
  first_by_id (id r) (place r t) = Some r.
Proof.
  unfold first_by_id, has_id.
  induction t as [|x t IH]; simpl; intros Hfresh.
  - now rewrite Z.eqb_refl.
  - destruct (id r <? id x); simpl.
    + now rewrite Z.eqb_refl.
    + destruct (Z.eqb_spec (id x) (id r)) as [E|_].
      * exfalso. apply (Hfresh x); auto.
      * apply IH. intros y Hy. apply Hfresh. now right.
Qed.


Lemma email_taken_In (e : string) (t : list User) :
  email_taken e t = true <-> In e (map email t).
Proof.
  unfold email_taken, has_email. rewrite existsb_exists, in_map_iff.
  split; intros [x [H1 H2]].
  - exists x. apply String.eqb_eq in H2. auto.
  - exists x. split; [assumption|]. apply String.eqb_eq. assumption.
Qed.

Lemma email_free_filter (e : string) (t : list User) :
  ~ In e (map email t) -> filter (has_email e) t = [].
Proof.
  induction t as [|x t IH]; simpl; intros Hn; [reflexivity|].
  unfold has_email at 1.
  destruct (String.eqb_spec (email x) e) as [E|_].
  - exfalso. apply Hn. now left.
  - apply IH. intros H. apply Hn. now right.
Qed.

(** Under the UNIQUE index an email in use is the email of one row. *)
Lemma email_once (e : string) (t : list User) :
  NoDup (map email t) -> In e (map email t) ->
  List.length (filter (has_email e) t) = 1%nat.
Proof.
  induction t as [|x t IH]; simpl; intros Hnd Hin; [contradiction|].
  inversion Hnd as [|? ? Hx Hnd']; subst.
  unfold has_email at 1.
  destruct (String.eqb_spec (email x) e) as [E|NE].
  - subst e. simpl. now rewrite email_free_filter.
  - destruct Hin as [E|Hin]; [contradiction|]. now apply IH.
Qed.

Lemma first_by_id_has_id (user_id : Z) (t : list User) (r : User) :
  first_by_id user_id t = Some r -> id r = user_id.
Proof.
  unfold first_by_id. intros H. apply find_some in H as [_ H].
  unfold has_id in H. now apply Z.eqb_eq.
Qed.

Lemma first_by_id_In (user_id : Z) (t : list User) (r : User) :
  first_by_id user_id t = Some r -> In r t.
Proof. unfold first_by_id. intros H. now apply find_some in H. Qed.

Lemma first_by_id_None (user_id : Z) (t : list User) :
  first_by_id user_id t = None <-> ~ In user_id (map id t).
Proof.
  unfold first_by_id. split.
  - intros H Hin. apply in_map_iff in Hin as [x [E Hx]].
    apply (find_none _ _ H) in Hx. unfold has_id in Hx.
    apply Z.eqb_neq in Hx. contradiction.
  - intros H. destruct (find (has_id user_id) t) as [r|] eqn:E; [|reflexivity].
    exfalso. apply H. apply find_some in E as [Hin Hid].
    unfold has_id in Hid. apply Z.eqb_eq in Hid. rewrite <- Hid. now apply in_map.
Qed.

Lemma update_rows_ids (pk : Z) (user : UserCreate) (t : list User) :
  map id (update_rows pk user t) = map id t.
Proof.
  unfold update_rows. rewrite map_map. apply map_ext.
  intros r. now destruct (has_id pk r).
Qed.

Lemma update_rows_created_at (pk : Z) (user : UserCreate) (t : list User) :
  map created_at (update_rows pk user t) = map created_at t.
Proof.
  unfold update_rows. rewrite map_map. apply map_ext.
  intros r. now destruct (has_id pk r).
Qed.

Lemma update_rows_others (pk : Z) (user : UserCreate) (t : list User) :
  delete_rows pk (update_rows pk user t) = delete_rows pk t.
Proof.
  unfold delete_rows, update_rows.
  induction t as [|r t IH]; simpl; [reflexivity|].
  destruct (has_id pk r) eqn:E.
  - unfold has_id in *. simpl. rewrite E. simpl. exact IH.
  - rewrite E. simpl. now rewrite IH.
Qed.

Lemma update_rows_first (pk : Z) (user : UserCreate) (t : list User) (r : User) :
  first_by_id pk t = Some r ->
  first_by_id pk (update_rows pk user t) = Some (set_fields user r).
Proof.
  unfold first_by_id, update_rows.
  induction t as [|x t IH]; simpl; [discriminate|].
  destruct (has_id pk x) eqn:E.
  - intros [= ->]. unfold has_id in *. simpl. now rewrite E.
  - rewrite E. exact IH.
Qed.

Lemma update_rows_absent (pk : Z) (user : UserCreate) (t : list User) :
  (forall x, In x t -> id x <> pk) -> update_rows pk user t = t.
Proof.
  unfold update_rows. induction t as [|x t IH]; simpl; intros H; [reflexivity|].
  unfold has_id at 1. destruct (Z.eqb_spec (id x) pk) as [E|_].
  - exfalso. apply (H x); auto.
  - f_equal. apply IH. intros y Hy. apply H. now right.
Qed.

Lemma delete_rows_first (pk : Z) (t : list User) :
  first_by_id pk (delete_rows pk t) = None.
Proof.
  unfold first_by_id, delete_rows.
  induction t as [|x t IH]; simpl; [reflexivity|].
  destruct (has_id pk x) eqn:E; simpl; [exact IH|]. now rewrite E.
Qed.

Lemma delete_rows_absent (pk : Z) (t : list User) :
  (forall x, In x t -> id x <> pk) -> delete_rows pk t = t.
Proof.
  unfold delete_rows. induction t as [|x t IH]; simpl; intros H; [reflexivity|].
  unfold has_id at 1. destruct (Z.eqb_spec (id x) pk) as [E|_].
  - exfalso. apply (H x); auto.
  - simpl. f_equal. apply IH. intros y Hy. apply H. now right.
Qed.

Lemma delete_rows_In (pk : Z) (t : list User) (x : User) :
  In x (delete_rows pk t) <-> In x t /\ id x <> pk.
Proof.
  unfold delete_rows. rewrite filter_In. unfold has_id.
  rewrite negb_true_iff, Z.eqb_neq. reflexivity.
Qed.

Lemma place_In (r x : User) (t : list User) :
  In x (place r t) -> x = r \/ In x t.
Proof.
  induction t as [|y t IH]; simpl.
  - intros [<-|[]]. now left.
  - destruct (id r <? id y); simpl.
    + intros [<-|[<-|H]]; auto.
    + intros [<-|H]; auto. destruct (IH H); auto.
Qed.

Lemma place_length (r : User) (t : list User) :
  List.length (place r t) = S (List.length t).
Proof.
  induction t as [|x t IH]; simpl; [reflexivity|].
  destruct (id r <? id x); simpl; [reflexivity | now rewrite IH].
Qed.

Lemma email_taken_dec (e : string) (t : list User) :
  email_taken e t = false -> ~ In e (map email t).
Proof. intros H Hin. apply email_taken_In in Hin. congruence. Qed.




Lemma ascending_last (l : list Z) (k : Z) :
  ascending l -> (forall y, In y l -> y < k) -> ascending (l ++ [k]).
Proof.
  induction l as [|x l IH]; simpl; intros Ha Hk.
  - split; [intros y []|exact I].
  - destruct Ha as [Hx Ha]. split.
    + intros y Hy. apply in_app_or in Hy as [Hy|[<-|[]]]; auto.
    + apply IH; auto.
Qed.

Lemma ascending_filter (f : User -> bool) (t : list User) :
  ascending (map id t) -> ascending (map id (filter f t)).
Proof.
  induction t as [|x t IH]; simpl; [auto|]. intros [Hx Ha].
  destruct (f x); simpl; [|auto]. split; [|auto].
  intros y Hy. apply Hx. apply in_map_iff in Hy as [z [<- Hz]].
  apply in_map. now apply filter_In in Hz.
Qed.

Lemma NoDup_filter_email (f : User -> bool) (t : list User) :
  NoDup (map email t) -> NoDup (map email (filter f t)).
Proof.
  induction t as [|x t IH]; simpl; [auto|]. intros Hnd.
  inversion Hnd as [|? ? Hx Hnd']; subst.
  destruct (f x); simpl; [|auto]. constructor; [|auto].
  intros Hin. apply Hx. apply in_map_iff in Hin as [z [<- Hz]].
  apply in_map. now apply filter_In in Hz.
Qed.

Lemma ascending_NoDup (l : list Z) : ascending l -> NoDup l.
Proof.
  induction l as [|x l IH]; simpl; [constructor|].
  intros [Hx Ha]. constructor; [|auto].
  intros Hin. apply Hx in Hin. lia.
Qed.

Lemma ascending_unique (t : list User) (x y : User) :
  ascending (map id t) -> In x t -> In y t -> id x = id y -> x = y.
Proof.
  induction t as [|z t IH]; simpl; [contradiction|].
  intros [Hz Ha] [<-|Hx] [<-|Hy] E; auto.
  - assert (id z < id y) by (apply Hz; now apply in_map). lia.
  - assert (id z < id x) by (apply Hz; now apply in_map). lia.
Qed.

Lemma emails_unique (t : list User) (x y : User) :
  NoDup (map email t) -> In x t -> In y t -> email x = email y -> x = y.
Proof.
  induction t as [|z t IH]; simpl; [contradiction|].
  intros Hnd. inversion Hnd as [|? ? Hz Hnd']; subst.
  intros [<-|Hx] [<-|Hy] E; auto.
  - exfalso. apply Hz. rewrite E. now apply in_map.
  - exfalso. apply Hz. rewrite <- E. now apply in_map.
Qed.

Lemma email_taken_by_other_true (pk : Z) (e : string) (t : list User) (other : User) :
  In other t -> id other <> pk -> email other = e ->
  email_taken_by_other pk e t = true.
Proof.
  intros Hin Hid He. unfold email_taken_by_other. apply existsb_exists.
  exists other. split; [assumption|]. unfold has_id, has_email.
  apply andb_true_iff. split.
  - apply negb_true_iff. now apply Z.eqb_neq.
  - now apply String.eqb_eq.
Qed.

Lemma email_taken_by_other_false (pk : Z) (e : string) (t : list User) :
  email_taken_by_other pk e t = false <->
  (forall x, In x t -> id x <> pk -> email x <> e).
Proof.
  split.
  - intros H x Hx Hid He.
    rewrite (email_taken_by_other_true pk e t x Hx Hid He) in H. discriminate.
  - intros H. destruct (email_taken_by_other pk e t) eqn:E; [|reflexivity].
    unfold email_taken_by_other in E. apply existsb_exists in E as [x [Hx Hb]].
    apply andb_true_iff in Hb as [Hid He]. unfold has_id, has_email in *.
    apply negb_true_iff, Z.eqb_neq in Hid. apply String.eqb_eq in He.
    exfalso. now apply (H x).
Qed.

Lemma own_email_free (t : list User) (r : User) :
  NoDup (map email t) -> In r t ->
  email_taken_by_other (id r) (email r) t = false.
Proof.
  intros Hnd Hin. apply email_taken_by_other_false. intros x Hx Hid He.
  apply Hid. f_equal. now apply (emails_unique t).
Qed.

Lemma update_rows_emails (pk : Z) (user : UserCreate) (t : list User) :
  ascending (map id t) ->
  NoDup (map email t) ->
  email_taken_by_other pk (uc_email user) t = false ->
  NoDup (map email (update_rows pk user t)).
Proof.
  induction t as [|x t IH]; simpl; intros Ha Hnd Ht; [constructor|].
  destruct Ha as [Hx Ha]. inversion Hnd as [|? ? Hex Hnd']; subst.
  apply orb_false_iff in Ht as [Htx Ht].
  unfold has_id at 1. destruct (Z.eqb_spec (id x) pk) as [E|NE].
  - rewrite update_rows_absent.
    + constructor; [|assumption]. simpl. intros Hin.
      apply in_map_iff in Hin as [y [Ey Hy]].
      assert (email_taken_by_other pk (uc_email user) t = true) as C; [|congruence].
      apply (email_taken_by_other_true _ _ _ y); auto.
      assert (id x < id y) by (apply Hx; now apply in_map). lia.
    + intros y Hy. assert (id x < id y) by (apply Hx; now apply in_map). lia.
  - constructor; [|now apply IH].
    intros Hin. apply in_map_iff in Hin as [y [Ey Hy]].
    unfold update_rows in Hy. apply in_map_iff in Hy as [z [Ez Hz]].
    destruct (has_id pk z); subst y.
    + simpl in Ey. unfold negb, has_id, has_email in Htx.
      destruct (Z.eqb_spec (id x) pk); [contradiction|].
      simpl in Htx. apply String.eqb_neq in Htx. congruence.
    + apply Hex. rewrite <- Ey. now apply in_map.
Qed.


Lemma delete_rows_length (t : list User) (r : User) :
  ascending (map id t) -> In r t ->
  S (List.length (delete_rows (id r) t)) = List.length t.
Proof.
  induction t as [|x t IH]; simpl; [contradiction|].
  intros [Hx Ha] Hin. unfold has_id at 1.
  destruct (Z.eqb_spec (id x) (id r)) as [E|NE]; simpl.
  - fold (delete_rows (id r) t). rewrite delete_rows_absent; [reflexivity|].
    intros y Hy. assert (id x < id y) by (apply Hx; now apply in_map). lia.
  - fold (delete_rows (id r) t). f_equal. apply IH; [assumption|].
    destruct Hin as [<-|Hin]; [contradiction | assumption].
Qed.




Lemma positive_next_rowid (t : list User) :
  Forall (fun r => 0 < id r) t -> 0 < next_rowid t.
Proof.
  destruct t as [|r t]; simpl; [lia|]. intros H.
  inversion H as [|? ? Hr _]; subst.
  pose proof (max_id_base t (id r)). lia.
Qed.

Lemma firstn_then_firstn {A} (a b : nat) (l : list A) :
  firstn a l ++ firstn b (skipn a l) = firstn (a + b) l.
Proof.
  revert l. induction a as [|a IH]; intros l; [reflexivity|].
  destruct l as [|x l]; simpl.
  - now rewrite firstn_nil.
  - now rewrite IH.
Qed.

Lemma skipn_then_skipn {A} (a b : nat) (l : list A) :
  skipn b (skipn a l) = skipn (a + b) l.
Proof.
  revert l. induction a as [|a IH]; intros l; [reflexivity|].
  destruct l as [|x l]; simpl; [now rewrite skipn_nil | apply IH].
Qed.


Lemma issued_cons (c : call) (r : response) (cs : list call) (rs : list response) :
  issued (c :: cs) (r :: rs) = issued [c] [r] ++ issued cs rs.
Proof. simpl. now destruct (created_id c r). Qed.

Lemma run_cons (c : call) (cs : list call) (w : world) :
  run (c :: cs) w
  = (fst (run cs (fst (exec c w))), snd (exec c w) :: snd (run cs (fst (exec c w)))).
Proof.
  simpl. destruct (exec c w) as [w1 r]. simpl. now destruct (run cs w1).
Qed.

Lemma fst_serve {A} (encode : A -> content) (m : M A) (w : world) :
  fst (serve encode m w) = fst (m w).
Proof. unfold serve. now destruct (m w). Qed.

Lemma sub_1 (n : nat) : (S n - n = 1)%nat.
Proof. lia. Qed.

Lemma sub_2 (n : nat) : (S (S n) - n = 2)%nat.
Proof. lia. Qed.

Lemma sub_3 (n : nat) : (S (S (S n)) - n = 3)%nat.
Proof. lia. Qed.

(** ** The integers of the engine *)

(** Every row of the table has a rowid that is an integer of the engine,
    and so has every id that a query finds. *)
Lemma rows_in_range (w : world) (r : User) :
  In r (rows w) -> sqlite_int (id r) = true.
Proof.
  intros H. pose proof (rows_storable w) as Hs.
  rewrite forallb_forall in Hs. now apply Hs.
Qed.

Lemma stored_id_in_range (user_id : Z) (w : world) (r : User) :
  first_by_id user_id (rows w) = Some r -> sqlite_int user_id = true.
Proof.
  intros H. rewrite <- (first_by_id_has_id _ _ _ H).
  apply (rows_in_range w). now apply first_by_id_In in H.
Qed.

Lemma filter_all_storable (t : list User) :
  (forall x, In x t -> storable x = true) -> filter storable t = t.
Proof.
  induction t as [|x t IH]; intros H; simpl; [reflexivity|].
  rewrite (H x) by now left. f_equal. apply IH. intros y Hy. apply H. now right.
Qed.

Lemma new_rowid_next (w : world) :
  next_rowid (rows w) <= max_rowid -> new_rowid w = Some (next_rowid (rows w)).
Proof.
  intros H. unfold new_rowid.
  destruct (Z.leb_spec (next_rowid (rows w)) max_rowid); [reflexivity | lia].
Qed.

Lemma random_rowid_positive (x : Z) : 0 < random_rowid x.
Proof.
  unfold random_rowid.
  assert (0 <= Z.land x (Z.shiftr max_rowid 1)); [|lia].
  apply Z.land_nonneg. right. now vm_compute.
Qed.

Lemma first_unused_spec (t : list User) (random : nat -> Z) (tries k : nat) (v : Z) :
  first_unused t random tries k = Some v ->
  existsb (has_id v) t = false /\ 0 < v.
Proof.
  revert k. induction tries as [|tries IH]; intros k; simpl; [discriminate|].
  destruct (existsb (has_id (random_rowid (random k))) t) eqn:E.
  - apply IH.
  - intros [= <-]. split; [assumption | apply random_rowid_positive].
Qed.

(** A rowid given to a new row is the rowid of no row, and positive when
    the rowids in use are. *)
Lemma new_rowid_unused (w : world) (pk : Z) :
  new_rowid w = Some pk -> forall x, In x (rows w) -> id x <> pk.
Proof.
  unfold new_rowid. destruct (next_rowid (rows w) <=? max_rowid).
  - intros [= <-] x Hx. apply next_rowid_above in Hx. lia.
  - intros H x Hx E. apply first_unused_spec in H as [H _].
    assert (existsb (has_id pk) (rows w) = true) as C; [|congruence].
    apply existsb_exists. exists x. split; [assumption|].
    unfold has_id. now apply Z.eqb_eq.
Qed.

Lemma new_rowid_positive (w : world) (pk : Z) :
  Forall (fun r => 0 < id r) (rows w) -> new_rowid w = Some pk -> 0 < pk.
Proof.
  intros Hp. unfold new_rowid. destruct (next_rowid (rows w) <=? max_rowid).
  - intros [= <-]. now apply positive_next_rowid.
  - intros H. now apply first_unused_spec in H.
Qed.

Lemma unchanged_set_fields (r : User) (user : UserCreate) :
  unchanged r user = true -> set_fields user r = r.
Proof.
  unfold unchanged, set_fields. intros H.
  apply andb_true_iff in H as [H Ha]. apply andb_true_iff in H as [Hn He].
  apply String.eqb_eq in Hn. apply String.eqb_eq in He. apply Z.eqb_eq in Ha.
  destruct r; simpl in *. congruence.
Qed.


Lemma ascending_place (r : User) (t : list User) :
  ascending (map id t) -> (forall x, In x t -> id x <> id r) ->
  ascending (map id (place r t)).
Proof.
  induction t as [|x t IH]; simpl; intros Ha Hfresh.
  - split; [intros y []|exact I].
  - destruct Ha as [Hx Ha]. destruct (Z.ltb_spec (id r) (id x)); simpl.
    + split; [|now split]. intros y [<-|Hy]; [assumption|].
      apply Hx in Hy. lia.
    + split.
      * intros y Hy. apply in_map_iff in Hy as [z [<- Hz]].
        apply place_In in Hz as [->|Hz].
        -- assert (id x <> id r) by (apply Hfresh; auto). lia.
        -- apply Hx. now apply in_map.
      * apply IH; [assumption|]. intros y Hy. apply Hfresh. now right.
Qed.

Lemma NoDup_emails_place (r : User) (t : list User) :
  NoDup (map email t) -> ~ In (email r) (map email t) ->
  NoDup (map email (place r t)).
Proof.
  induction t as [|x t IH]; simpl; intros Hnd Hfree.
  - constructor; [intros []|constructor].
  - inversion Hnd as [|? ? Hx Hnd']; subst.
    destruct (id r <? id x); simpl.
    + constructor; [exact Hfree | assumption].
    + constructor.
      * intros Hin. apply in_map_iff in Hin as [z [Ez Hz]].
        apply place_In in Hz as [->|Hz].
        -- apply Hfree. left. now symmetry.
        -- apply Hx. rewrite <- Ez. now apply in_map.
      * apply IH; [assumption|]. intros H. apply Hfree. now right.
Qed.

(** ** The session when the engine answers *)

Lemma round_trip_answers (w : world) :
  no_faults w -> round_trip w = (sent w, inr tt).
Proof. unfold no_faults, round_trip. now intros ->. Qed.

Lemma sent_no_faults (w : world) : no_faults w -> no_faults (sent w).
Proof. unfold no_faults, sent. simpl. now intros ->. Qed.

Lemma with_rows_no_faults (t : list User) (w : world) :
  no_faults w -> no_faults (with_rows t w).
Proof. now unfold no_faults. Qed.

Lemma then_answers {A} (k : M A) (w : world) :
  no_faults w -> (round_trip ;;; k) w = k (sent w).
Proof. intros H. unfold bind. now rewrite round_trip_answers. Qed.

Lemma query_first_answers (user_id : Z) (w : world) :
  no_faults w -> sqlite_int user_id = true ->
  query_first user_id w = (sent w, inr (first_by_id user_id (rows w))).
Proof. intros H Hb. unfold query_first. rewrite Hb. now rewrite then_answers. Qed.

Lemma query_offset_limit_answers (skip limit : Z) (w : world) :
  no_faults w -> sqlite_int skip = true -> sqlite_int limit = true ->
  query_offset_limit skip limit w
  = (sent w, inr (sql_limit limit (sql_offset skip (rows w)))).
Proof.
  intros H Hs Hl. unfold query_offset_limit. rewrite Hs, Hl.
  now rewrite then_answers.
Qed.

Lemma commit_add_answers (user : UserCreate) (w : world) :
  no_faults w -> sqlite_int (uc_age user) = true ->
  next_rowid (rows w) <= max_rowid ->
  commit_add user w
  = if email_taken (uc_email user) (rows w) then (sent w, inl IntegrityError)
    else (with_rows
            (place (mkUser (next_rowid (rows w)) (uc_name user) (uc_email user)
                           (uc_age user) (utcnow w)) (rows w)) (sent w),
          inr (next_rowid (rows w))).
Proof.
  intros H Ha Hn. unfold commit_add. rewrite Ha, then_answers by assumption.
  now rewrite new_rowid_next.
Qed.

Lemma commit_update_same (db_user : User) (user : UserCreate) (w : world) :
  unchanged db_user user = true -> commit_update db_user user w = (w, inr tt).
Proof. intros H. unfold commit_update. now rewrite H. Qed.

Lemma commit_update_answers (db_user : User) (user : UserCreate) (w : world) :
  no_faults w -> unchanged db_user user = false ->
  sqlite_int (uc_age user) = true ->
  commit_update db_user user w
  = if negb (String.eqb (email db_user) (uc_email user))
       && email_taken_by_other (id db_user) (uc_email user) (rows w)
    then (sent w, inl IntegrityError)
    else (with_rows (update_rows (id db_user) user (rows w)) (sent w), inr tt).
Proof.
  intros H Hu Ha. unfold commit_update. rewrite Hu, Ha.
  rewrite andb_false_r. now rewrite then_answers.
Qed.

Lemma commit_delete_answers (db_user : User) (w : world) :
  no_faults w ->
  commit_delete db_user w
  = (with_rows (delete_rows (id db_user) (rows w)) (sent w), inr tt).
Proof. intros H. unfold commit_delete. now rewrite then_answers. Qed.

Lemma refresh_answers (pk : Z) (w : world) :
  no_faults w ->
  refresh pk w
  = (sent w, match first_by_id pk (rows w) with
             | Some r => inr r
             | None => inl InvalidRequestError
             end).
Proof.
  intros H. unfold refresh. rewrite then_answers by assumption.
  change (rows (sent w)) with (rows w). now destruct (first_by_id pk (rows w)).
Qed.

(** ** The session whatever the engine does *)

Lemma round_trip_cases (w : world) :
  round_trip w = (sent w, inl OperationalError) \/ round_trip w = (sent w, inr tt).
Proof. unfold round_trip. destruct (faults w) as [|[|] fs]; auto. Qed.

(** The exceptions that no handler turns into a response. *)
Lemma respond_unhandled {A} (encode : A -> content) (e : exn) :
  e = IntegrityError \/ e = OperationalError \/ e = InvalidRequestError \/
  e = OverflowError ->
  respond encode (inl e) = mkResponse 500 (plain_text "Internal Server Error").
Proof. intros [-> | [-> | [-> | ->]]]; reflexivity. Qed.

Lemma query_first_cases (user_id : Z) (w : world) :
  query_first user_id w = (w, inl OverflowError) \/
  query_first user_id w = (sent w, inl OperationalError) \/
  query_first user_id w = (sent w, inr (first_by_id user_id (rows w))).
Proof.
  unfold query_first, bind. destruct (sqlite_int user_id); [|auto].
  destruct (round_trip_cases w) as [-> | ->]; auto.
Qed.

Lemma query_offset_limit_cases (skip limit : Z) (w : world) :
  query_offset_limit skip limit w = (w, inl OverflowError) \/
  query_offset_limit skip limit w = (sent w, inl OperationalError) \/
  query_offset_limit skip limit w
  = (sent w, inr (sql_limit limit (sql_offset skip (rows w)))).
Proof.
  unfold query_offset_limit, bind.
  destruct (sqlite_int skip && sqlite_int limit); [|auto].
  destruct (round_trip_cases w) as [-> | ->]; auto.
Qed.

Lemma commit_add_cases (user : UserCreate) (w : world) :
  (exists w' e, commit_add user w = (w', inl e) /\ rows w' = rows w /\
                (no_faults w -> no_faults w')) \/
  (exists pk,
     new_rowid w = Some pk /\
     email_taken (uc_email user) (rows w) = false /\
     sqlite_int (uc_age user) = true /\
     commit_add user w
     = (with_rows (place (mkUser pk (uc_name user) (uc_email user)
                                 (uc_age user) (utcnow w)) (rows w)) (sent w),
        inr pk)).
Proof.
  unfold commit_add, bind. destruct (sqlite_int (uc_age user)); [|left; eauto].
  destruct (round_trip_cases w) as [-> | ->].
  - left. exists (sent w), OperationalError. repeat split. apply sent_no_faults.
  - change (rows (sent w)) with (rows w).
    destruct (new_rowid w) as [pk|].
    + destruct (email_taken (uc_email user) (rows w)).
      * left. exists (sent w), IntegrityError. repeat split. apply sent_no_faults.
      * right. exists pk. auto.
    + left. exists (sent w), OperationalError. repeat split. apply sent_no_faults.
Qed.

Lemma commit_update_cases (db_user : User) (user : UserCreate) (w : world) :
  (unchanged db_user user = true /\ commit_update db_user user w = (w, inr tt)) \/
  (exists w' e, commit_update db_user user w = (w', inl e) /\ rows w' = rows w /\
                (e = IntegrityError \/ e = OperationalError \/ e = OverflowError)) \/
  (unchanged db_user user = false /\
   (String.eqb (email db_user) (uc_email user) = true \/
    email_taken_by_other (id db_user) (uc_email user) (rows w) = false) /\
   commit_update db_user user w
   = (with_rows (update_rows (id db_user) user (rows w)) (sent w), inr tt)).
Proof.
  unfold commit_update, bind. destruct (unchanged db_user user); [auto|].
  destruct (negb (age db_user =? uc_age user) && negb (sqlite_int (uc_age user))).
  - right. left. exists w, OverflowError. auto.
  - destruct (round_trip_cases w) as [-> | ->].
    + right. left. exists (sent w), OperationalError. auto.
    + change (rows (sent w)) with (rows w).
      destruct (String.eqb (email db_user) (uc_email user)); simpl.
      * right. right. auto.
      * destruct (email_taken_by_other (id db_user) (uc_email user) (rows w)).
        -- right. left. exists (sent w), IntegrityError. auto.
        -- right. right. auto.
Qed.

Lemma refresh_cases (pk : Z) (w : world) :
  (exists e, refresh pk w = (sent w, inl e) /\
             (e = OperationalError \/ e = InvalidRequestError)) \/
  (exists r, refresh pk w = (sent w, inr r) /\ first_by_id pk (rows w) = Some r).
Proof.
  unfold refresh, bind.
  destruct (round_trip_cases w) as [-> | ->]; [eauto|].
  change (rows (sent w)) with (rows w).
  destruct (first_by_id pk (rows w)); eauto.
Qed.

Lemma commit_delete_cases (db_user : User) (w : world) :
  commit_delete db_user w = (sent w, inl OperationalError) \/
  commit_delete db_user w
  = (with_rows (delete_rows (id db_user) (rows w)) (sent w), inr tt).
Proof.
  unfold commit_delete, bind. destruct (round_trip_cases w) as [-> | ->]; auto.
Qed.

(** ** What the handlers write is what the table holds *)

Lemma random_rowid_in_range (x : Z) : sqlite_int (random_rowid x) = true.
Proof.
  pose proof (random_rowid_positive x) as Hp. unfold random_rowid in *.
  replace (Z.shiftr max_rowid 1) with (Z.ones 62) in * by reflexivity.
  rewrite Z.land_ones in * by lia.
  pose proof (Z.mod_pos_bound x (2 ^ 62) ltac:(lia)) as Hb.
  unfold sqlite_int, max_rowid. apply andb_true_iff. split; apply Z.leb_le; lia.
Qed.

Lemma first_unused_in_range (t : list User) (random : nat -> Z) (tries k : nat)
    (v : Z) :
  first_unused t random tries k = Some v -> sqlite_int v = true.
Proof.
  revert k. induction tries as [|tries IH]; intros k; simpl; [discriminate|].
  destruct (existsb (has_id (random_rowid (random k))) t).
  - apply IH.
  - intros [= <-]. apply random_rowid_in_range.
Qed.

(** A rowid given to a new row is an integer of the engine. *)
Lemma new_rowid_in_range (w : world) (pk : Z) :
  new_rowid w = Some pk -> sqlite_int pk = true.
Proof.
  unfold new_rowid. destruct (Z.leb_spec (next_rowid (rows w)) max_rowid) as [Hle|Hgt].
  - intros [= <-]. unfold sqlite_int. apply andb_true_iff.
    split; apply Z.leb_le; [|exact Hle].
    pose proof (rows_in_range w) as Hr. unfold next_rowid in *.
    destruct (rows w) as [|r t]; [unfold max_rowid; lia|].
    pose proof (max_id_base t (id r)) as Hb.
    assert (sqlite_int (id r) = true) as Hi by (apply Hr; now left).
    unfold sqlite_int in Hi. apply andb_true_iff in Hi as [Hi _].
    apply Z.leb_le in Hi. lia.
  - apply first_unused_in_range.
Qed.

Lemma rows_placed (r : User) (w w' : world) :
  sqlite_int (id r) = true ->
  rows (with_rows (place r (rows w)) w') = place r (rows w).
Proof.
  intros Hr. cbn [rows with_rows]. apply filter_all_storable.
  intros x Hx. apply place_In in Hx as [-> | Hx]; [exact Hr|].
  now apply (rows_in_range w) in Hx.
Qed.

Lemma rows_updated (pk : Z) (user : UserCreate) (w w' : world) :
  rows (with_rows (update_rows pk user (rows w)) w') = update_rows pk user (rows w).
Proof.
  cbn [rows with_rows]. apply filter_all_storable.
  intros x Hx. unfold update_rows in Hx. apply in_map_iff in Hx as [y [<- Hy]].
  apply (rows_in_range w) in Hy. now destruct (has_id pk y).
Qed.

Lemma rows_deleted (pk : Z) (w w' : world) :
  rows (with_rows (delete_rows pk (rows w)) w') = delete_rows pk (rows w).
Proof.
  cbn [rows with_rows]. apply filter_all_storable.
  intros x Hx. apply delete_rows_In in Hx as [Hx _].
  now apply (rows_in_range w) in Hx.
Qed.

(** ** The handlers, path by path *)


(** What [create_user] can do: answer 400 with the table as it was, or
    write the row and return it; when the engine fails the reload, the
    row is written and the answer is 400. *)
Lemma create_user_cases (user : UserCreate) (w : world) :
  (exists w',
     create_user user w = (w', inl (HTTPException 400 "Failed to create user")) /\
     rows w' = rows w /\ (no_faults w -> no_faults w')) \/
  (exists pk,
     new_rowid w = Some pk /\
     email_taken (uc_email user) (rows w) = false /\
     sqlite_int (uc_age user) = true /\
     rows (fst (create_user user w))
     = place (mkUser pk (uc_name user) (uc_email user) (uc_age user) (utcnow w))
             (rows w) /\
     (no_faults w -> no_faults (fst (create_user user w))) /\
     (snd (create_user user w)
      = inr (mkUserResponse (uc_name user) (uc_email user) (uc_age user) pk
                            (utcnow w)) \/
      snd (create_user user w) = inl (HTTPException 400 "Failed to create user") /\
      ~ no_faults w)).
Proof.
  unfold create_user, try_except, bind.
  destruct (commit_add_cases user w) as [[w' [e [-> [Hr Hf]]]] | [pk [Hpk [He [Ha ->]]]]].
  - left. exists w'. auto.
  - right. exists pk. split; [assumption|]. split; [assumption|].
    split; [assumption|].
    set (r := mkUser pk (uc_name user) (uc_email user) (uc_age user) (utcnow w)).
    set (w1 := with_rows (place r (rows w)) (sent w)).
    assert (rows w1 = place r (rows w)) as Hrows
      by exact (rows_placed r w (sent w) (new_rowid_in_range w pk Hpk)).
    assert (first_by_id pk (rows w1) = Some r) as Hfound.
    { rewrite Hrows. change pk with (id r) at 1.
      apply first_by_id_place. intros x Hx. now apply (new_rowid_unused w pk). }
    cbv beta iota.
    destruct (faults w) as [|b fs] eqn:Hfs.
    + assert (no_faults w1) as Hf1
        by (apply with_rows_no_faults, sent_no_faults; exact Hfs).
      rewrite refresh_answers, Hfound by assumption.
      cbn [fst snd ret]. split; [exact Hrows|]. split.
      * intros _. now apply sent_no_faults.
      * now left.
    + assert (~ no_faults w) as Hnf by (unfold no_faults; rewrite Hfs; discriminate).
      destruct (refresh_cases pk w1) as [[e [-> _]] | [r' [-> Hr']]].
      * cbn [fst snd]. split; [exact Hrows|]. split; [tauto|].
        right. now split.
      * rewrite Hfound in Hr'. injection Hr' as <-.
        cbn [fst snd ret]. split; [exact Hrows|]. split; [tauto|].
        now left.
Qed.

Lemma create_user_taken (w : world) (user : UserCreate) :
  email_taken (uc_email user) (rows w) = true ->
  exists w',
    create_user user w = (w', inl (HTTPException 400 "Failed to create user")) /\
    rows w' = rows w /\ (no_faults w -> no_faults w').
Proof.
  intros He. destruct (create_user_cases user w) as [H | [pk [_ [E _]]]].
  - exact H.
  - congruence.
Qed.

(** An integer that the driver does not bind leaves [create_user] with
    400 and the world as it was. *)
Lemma create_user_overflow (w : world) (user : UserCreate) :
  sqlite_int (uc_age user) = false ->
  create_user user w = (w, inl (HTTPException 400 "Failed to create user")).
Proof.
  intros Ha. unfold create_user, try_except, bind, commit_add. now rewrite Ha.
Qed.

Lemma get_user_answers (w : world) (user_id : Z) :
  no_faults w -> sqlite_int user_id = true ->
  get_user user_id w
  = (sent w, match first_by_id user_id (rows w) with
             | Some r => inr (model_validate r)
             | None => inl (HTTPException 404 "User not found")
             end).
Proof.
  intros Hf Hb. unfold get_user, bind.
  rewrite query_first_answers by assumption.
  now destruct (first_by_id user_id (rows w)).
Qed.

Lemma get_user_overflow (w : world) (user_id : Z) :
  sqlite_int user_id = false ->
  get_user user_id w = (w, inl OverflowError).
Proof. intros Hb. unfold get_user, bind, query_first. now rewrite Hb. Qed.

Lemma get_users_answers (w : world) (skip limit : Z) :
  no_faults w -> sqlite_int skip = true -> sqlite_int limit = true ->
  get_users skip limit w
  = (sent w, inr (map model_validate (sql_limit limit (sql_offset skip (rows w))))).
Proof.
  intros Hf Hs Hl. unfold get_users, bind.
  now rewrite query_offset_limit_answers.
Qed.

Lemma update_user_answers (w : world) (user_id : Z) (user : UserCreate) :
  no_faults w -> sqlite_int user_id = true ->
  update_user user_id user w
  = match first_by_id user_id (rows w) with
    | None => (sent w, inl (HTTPException 404 "User not found"))
    | Some r =>
        if unchanged r user then (sent (sent w), inr (model_validate r))
        else if negb (age r =? uc_age user) && negb (sqlite_int (uc_age user))
        then (sent w, inl OverflowError)
        else if negb (String.eqb (email r) (uc_email user))
                && email_taken_by_other user_id (uc_email user) (rows w)
        then (sent (sent w), inl IntegrityError)
        else (sent (with_rows (update_rows user_id user (rows w)) (sent (sent w))),
              inr (model_validate (set_fields user r)))
    end.
Proof.
  intros Hf Hb. unfold update_user, bind at 1.
  rewrite query_first_answers by assumption.
  destruct (first_by_id user_id (rows w)) as [r|] eqn:Hq; [|reflexivity].
  pose proof (first_by_id_has_id _ _ _ Hq) as Hid.
  pose proof (sent_no_faults w Hf) as Hf1.
  unfold bind, commit_update.
  destruct (unchanged r user) eqn:Hu.
  - rewrite refresh_answers by assumption.
    change (rows (sent w)) with (rows w). now rewrite Hid, Hq.
  - destruct (negb (age r =? uc_age user) && negb (sqlite_int (uc_age user)));
      [reflexivity|].
    rewrite then_answers by assumption.
    change (rows (sent (sent w))) with (rows w). rewrite Hid.
    destruct (negb (String.eqb (email r) (uc_email user))
              && email_taken_by_other user_id (uc_email user) (rows w));
      [reflexivity|].
    rewrite refresh_answers
      by (apply with_rows_no_faults; now apply sent_no_faults).
    rewrite (rows_updated user_id user w).
    now rewrite (update_rows_first _ _ _ _ Hq).
Qed.

Lemma delete_user_answers (w : world) (user_id : Z) :
  no_faults w -> sqlite_int user_id = true ->
  delete_user user_id w
  = match first_by_id user_id (rows w) with
    | None => (sent w, inl (HTTPException 404 "User not found"))
    | Some _ => (with_rows (delete_rows user_id (rows w)) (sent (sent w)),
                 inr "User deleted successfully")
    end.
Proof.
  intros Hf Hb. unfold delete_user, bind.
  rewrite query_first_answers by assumption.
  destruct (first_by_id user_id (rows w)) as [r|] eqn:Hq; [|reflexivity].
  pose proof (first_by_id_has_id _ _ _ Hq) as Hid.
  rewrite commit_delete_answers by now apply sent_no_faults.
  now rewrite Hid.
Qed.

(** What [update_user] can do, whatever the engine does: fail with the
    table as it was, return the record it found when nothing changes, or
    write the three attributes of the rows with that id. *)
Lemma update_user_cases (w : world) (user_id : Z) (user : UserCreate) :
  (exists e, snd (update_user user_id user w) = inl e /\
             rows (fst (update_user user_id user w)) = rows w) \/
  (exists r, first_by_id user_id (rows w) = Some r /\
             unchanged r user = true /\
             snd (update_user user_id user w) = inr (model_validate r) /\
             rows (fst (update_user user_id user w)) = rows w) \/
  (exists r, first_by_id user_id (rows w) = Some r /\
             unchanged r user = false /\
             (String.eqb (email r) (uc_email user) = true \/
              email_taken_by_other user_id (uc_email user) (rows w) = false) /\
             rows (fst (update_user user_id user w))
             = update_rows user_id user (rows w) /\
             (snd (update_user user_id user w)
              = inr (model_validate (set_fields user r)) \/
              exists e, snd (update_user user_id user w) = inl e)).
Proof.
  destruct (update_user user_id user w) as [wf o] eqn:E. cbn [fst snd].
  revert E. unfold update_user, bind.
  destruct (query_first_cases user_id w) as [-> | [-> | ->]];
    [intros [= <- <-]; left; eauto | intros [= <- <-]; left; eauto |].
  destruct (first_by_id user_id (rows w)) as [r|] eqn:Hq;
    [|intros [= <- <-]; left; eauto].
  pose proof (first_by_id_has_id _ _ _ Hq) as Hid.
  destruct (commit_update_cases r user (sent w))
    as [[Hu ->] | [[w' [e [-> [Hr _]]]] | [Hu [Hfree ->]]]].
  - destruct (refresh_cases (id r) (sent w)) as [[e [-> _]] | [r' [-> Hr']]];
      intros [= <- <-].
    + left. eauto.
    + right. left. exists r. change (rows (sent w)) with (rows w) in Hr'.
      rewrite Hid, Hq in Hr'. injection Hr' as <-. auto.
  - intros [= <- <-]. left. exists e. split; [reflexivity | exact Hr].
  - change (rows (sent w)) with (rows w) in *. rewrite Hid in *.
    set (w1 := with_rows _ _).
    destruct (refresh_cases user_id w1) as [[e [-> _]] | [r' [-> Hr']]];
      intros [= <- <-]; right; right; exists r;
      (split; [reflexivity|]); (split; [assumption|]); (split; [assumption|]);
      (split; [exact (rows_updated user_id user w (sent (sent w)))|]).
    + right. eauto.
    + left. unfold w1 in Hr'. rewrite (rows_updated user_id user w) in Hr'.
      rewrite (update_rows_first _ _ _ _ Hq) in Hr'. now injection Hr' as <-.
Qed.

Lemma delete_user_cases (w : world) (user_id : Z) :
  (exists e, snd (delete_user user_id w) = inl e /\
             rows (fst (delete_user user_id w)) = rows w) \/
  (exists r, first_by_id user_id (rows w) = Some r /\
             snd (delete_user user_id w) = inr "User deleted successfully" /\
             rows (fst (delete_user user_id w)) = delete_rows user_id (rows w)).
Proof.
  destruct (delete_user user_id w) as [wf o] eqn:E. cbn [fst snd].
  revert E. unfold delete_user, bind.
  destruct (query_first_cases user_id w) as [-> | [-> | ->]];
    [intros [= <- <-]; left; eauto | intros [= <- <-]; left; eauto |].
  destruct (first_by_id user_id (rows w)) as [r|] eqn:Hq;
    [|intros [= <- <-]; left; eauto].
  pose proof (first_by_id_has_id _ _ _ Hq) as Hid.
  destruct (commit_delete_cases r (sent w)) as [-> | ->]; intros [= <- <-].
  - left. eauto.
  - right. exists r. rewrite Hid. repeat split.
    exact (rows_deleted user_id w (sent (sent w))).
Qed.

Lemma get_user_rows (w : world) (user_id : Z) :
  rows (fst (get_user user_id w)) = rows w.
Proof.
  unfold get_user, bind.
  destruct (query_first_cases user_id w) as [-> | [-> | ->]]; try reflexivity.
  now destruct (first_by_id user_id (rows w)).
Qed.

Lemma get_users_rows (w : world) (skip limit : Z) :
  rows (fst (get_users skip limit w)) = rows w.
Proof.
  unfold get_users, bind.
  destruct (query_offset_limit_cases skip limit w) as [-> | [-> | ->]]; reflexivity.
Qed.

(** ** An engine that answers keeps answering *)

Lemma calm_ret {A} (a : A) : calm (ret a).
Proof. now intros w H. Qed.

Lemma calm_raise {A} (e : exn) : calm (@raise A e).
Proof. now intros w H. Qed.

Lemma calm_bind {A B} (m : M A) (k : A -> M B) :
  calm m -> (forall a, calm (k a)) -> calm (bind m k).
Proof.
  intros Hm Hk w Hw. unfold bind. specialize (Hm w Hw).
  destruct (m w) as [w' [e|a]]; cbn [fst] in *; [assumption|].
  now apply Hk.
Qed.

Lemma calm_try_except {A} (m : M A) (h : exn -> M A) :
  calm m -> (forall e, calm (h e)) -> calm (try_except m h).
Proof.
  intros Hm Hh w Hw. unfold try_except. specialize (Hm w Hw).
  destruct (m w) as [w' [e|a]]; cbn [fst] in *; [|assumption].
  now apply Hh.
Qed.

Lemma calm_round_trip : calm round_trip.
Proof. intros w Hw. rewrite round_trip_answers by assumption. now apply sent_no_faults. Qed.

Lemma calm_then {A} (k : M A) : calm k -> calm (round_trip ;;; k).
Proof. intros Hk. apply calm_bind; [apply calm_round_trip | now intros _]. Qed.

Lemma calm_query_first (user_id : Z) : calm (query_first user_id).
Proof.
  intros w Hw. unfold query_first. destruct (sqlite_int user_id); [|assumption].
  revert w Hw. apply calm_then. now intros w Hw.
Qed.

Lemma calm_query_offset_limit (skip limit : Z) : calm (query_offset_limit skip limit).
Proof.
  intros w Hw. unfold query_offset_limit.
  destruct (sqlite_int skip && sqlite_int limit); [|assumption].
  revert w Hw. apply calm_then. now intros w Hw.
Qed.

Lemma calm_commit_add (user : UserCreate) : calm (commit_add user).
Proof.
  intros w Hw. destruct (commit_add_cases user w) as [[w' [e [-> [_ H]]]] | [pk [_ [_ [_ ->]]]]].
  - now apply H.
  - now apply with_rows_no_faults, sent_no_faults.
Qed.

Lemma calm_commit_update (db_user : User) (user : UserCreate) :
  calm (commit_update db_user user).
Proof.
  intros w Hw. unfold commit_update. destruct (unchanged db_user user); [assumption|].
  destruct (negb (age db_user =? uc_age user) && negb (sqlite_int (uc_age user)));
    [assumption|].
  revert w Hw. apply calm_then. intros w Hw.
  destruct (negb (String.eqb (email db_user) (uc_email user))
            && email_taken_by_other (id db_user) (uc_email user) (rows w));
    [assumption | now apply with_rows_no_faults].
Qed.

Lemma calm_commit_delete (db_user : User) : calm (commit_delete db_user).
Proof. apply calm_then. intros w Hw. now apply with_rows_no_faults. Qed.

Lemma calm_refresh (pk : Z) : calm (refresh pk).
Proof. apply calm_then. intros w Hw. now destruct (first_by_id pk (rows w)). Qed.

Lemma calm_create_user (user : UserCreate) : calm (create_user user).
Proof.
  apply calm_try_except; [|intros e; apply calm_raise].
  apply calm_bind; [apply calm_commit_add|]. intros pk.
  apply calm_bind; [apply calm_refresh|]. intros r. apply calm_ret.
Qed.

Lemma calm_get_users (skip limit : Z) : calm (get_users skip limit).
Proof.
  apply calm_bind; [apply calm_query_offset_limit|]. intros l. apply calm_ret.
Qed.

Lemma calm_get_user (user_id : Z) : calm (get_user user_id).
Proof.
  apply calm_bind; [apply calm_query_first|].
  intros [r|]; [apply calm_ret | apply calm_raise].
Qed.

Lemma calm_update_user (user_id : Z) (user : UserCreate) :
  calm (update_user user_id user).
Proof.
  apply calm_bind; [apply calm_query_first|]. intros [r|]; [|apply calm_raise].
  apply calm_bind; [apply calm_commit_update|]. intros _.
  apply calm_bind; [apply calm_refresh|]. intros r'. apply calm_ret.
Qed.

Lemma calm_delete_user (user_id : Z) : calm (delete_user user_id).
Proof.
  apply calm_bind; [apply calm_query_first|]. intros [r|]; [|apply calm_raise].
  apply calm_bind; [apply calm_commit_delete|]. intros _. apply calm_ret.
Qed.

Lemma exec_no_faults (c : call) (w : world) :
  no_faults w -> no_faults (fst (exec c w)).
Proof.
  intros Hw. destruct c; unfold exec; rewrite fst_serve.
  - now apply calm_create_user.
  - now apply calm_get_users.
  - now apply calm_get_user.
  - now apply calm_update_user.
  - now apply calm_delete_user.
Qed.

Lemma run_no_faults (cs : list call) (w : world) :
  no_faults w -> no_faults (fst (run cs w)).
Proof.
  revert w. induction cs as [|c cs IH]; intros w Hw; [exact Hw|].
  rewrite run_cons. cbn [fst]. now apply IH, exec_no_faults.
Qed.

Lemma snd_serve {A} (encode : A -> content) (m : M A) (w : world) :
  snd (serve encode m w) = respond encode (snd (m w)).
Proof. unfold serve. now destruct (m w). Qed.

(** ** Creation *)




(** C2: creating with an email that a stored record already has fails
    with 400, whatever the engine does, and leaves the table as it was:
    it holds one record with that email. *)
Theorem duplicate_email_rejected (w : world) (user : UserCreate) :
  NoDup (map email (rows w)) ->
  In (uc_email user) (map email (rows w)) ->
  exists w',
    create_user user w = (w', inl (HTTPException 400 "Failed to create user")) /\
    snd (exec (CreateUser user) w)
    = mkResponse 400 (detail_json "Failed to create user") /\
    rows w' = rows w /\
    List.length (filter (has_email (uc_email user)) (rows w')) = 1%nat.
Proof.
  intros Hnd Hin.
  pose proof (proj2 (email_taken_In _ _) Hin) as He.
  pose proof (email_once _ _ Hnd Hin) as Hone.
  destruct (create_user_taken w user He) as [w' [Hc [Hr _]]].
  exists w'. split; [exact Hc|]. split; [|split; [exact Hr | now rewrite Hr]].
  unfold exec. now rewrite snd_serve, Hc.
Qed.

Lemma duplicate_email_rejected_witness :
  exists w',
    create_user john_doe two_users
    = (w', inl (HTTPException 400 "Failed to create user")) /\
    snd (exec (CreateUser john_doe) two_users)
    = mkResponse 400 (detail_json "Failed to create user") /\
    rows w' = rows two_users /\
    List.length (filter (has_email (uc_email john_doe)) (rows w')) = 1%nat.
Proof.
  apply (duplicate_email_rejected two_users john_doe).
  - simpl. repeat constructor; simpl; intuition discriminate.
  - simpl. now left.
Defined.

(** ** Update *)

(** C3: updating an existing record keeps its id and its creation time,
    and every other record as it is; when the handler returns, the record
    carries the payload's name, email and age. *)
Theorem update_frame (w : world) (user_id : Z) (user : UserCreate) (r : User) :
  first_by_id user_id (rows w) = Some r ->
  let w' := fst (update_user user_id user w) in
  (exists r', first_by_id user_id (rows w') = Some r' /\
              id r' = id r /\ created_at r' = created_at r) /\
  map id (rows w') = map id (rows w) /\
  map created_at (rows w') = map created_at (rows w) /\
  delete_rows user_id (rows w') = delete_rows user_id (rows w) /\
  match snd (update_user user_id user w) with
  | inr updated =>
      updated = mkUserResponse (uc_name user) (uc_email user) (uc_age user)
                               (id r) (created_at r) /\
      first_by_id user_id (rows w') = Some (set_fields user r)
  | inl _ => True
  end.
Proof.
  intros Hq w'. unfold w'.
  destruct (update_user_cases w user_id user)
    as [[e [-> ->]] | [[r0 [Hq0 [Hu [-> ->]]]] | [r0 [Hq0 [Hu [_ [-> Hout]]]]]]].
  - repeat split; try exact I. exists r. auto.
  - rewrite Hq in Hq0. injection Hq0 as <-.
    pose proof (unchanged_set_fields r user Hu) as Hsame.
    repeat split.
    + exists r. auto.
    + rewrite <- Hsame at 1. reflexivity.
    + now rewrite Hsame.
  - rewrite Hq in Hq0. injection Hq0 as <-.
    split; [|split; [|split; [|split]]].
    + exists (set_fields user r). split; [|split; reflexivity].
      now apply update_rows_first.
    + apply update_rows_ids.
    + apply update_rows_created_at.
    + apply update_rows_others.
    + destruct Hout as [-> | [e ->]]; [|exact I].
      split; [reflexivity | now apply update_rows_first].
Qed.

Lemma update_frame_witness :
  (exists r', first_by_id 1 (rows (fst (update_user 1 jane_doe two_users))) = Some r' /\
              id r' = id john /\ created_at r' = created_at john) /\
  map id (rows (fst (update_user 1 jane_doe two_users))) = map id (rows two_users) /\
  map created_at (rows (fst (update_user 1 jane_doe two_users)))
  = map created_at (rows two_users) /\
  delete_rows 1 (rows (fst (update_user 1 jane_doe two_users)))
  = delete_rows 1 (rows two_users) /\
  match snd (update_user 1 jane_doe two_users) with
  | inr updated =>
      updated = mkUserResponse (uc_name jane_doe) (uc_email jane_doe)
                               (uc_age jane_doe) (id john) (created_at john) /\
      first_by_id 1 (rows (fst (update_user 1 jane_doe two_users)))
      = Some (set_fields jane_doe john)
  | inl _ => True
  end.
Proof.
  apply (update_frame two_users 1 jane_doe john). reflexivity.
Defined.

(** ** Reading an id that is not there *)

(** One call: a row of the table was there before or is the one whose
    creation the response reports. *)
Lemma exec_rows (c : call) (w : world) :
  no_faults w ->
  forall x, In x (rows (fst (exec c w))) ->
    In (id x) (map id (rows w)) \/
    In (id x) (issued [c] [snd (exec c w)]).
Proof.
  intros Hf x.
  destruct c as [user|skip limit|uid|uid user|uid]; unfold exec;
    rewrite fst_serve, ?snd_serve.
  - destruct (create_user_cases user w)
      as [[w' [-> [Hr _]]] | [pk [_ [_ [_ [-> [_ [-> | [_ Hnf]]]]]]]]].
    + cbn [fst]. rewrite Hr. intros Hx. left. now apply in_map.
    + intros Hx. apply place_In in Hx as [-> | Hx]; [right; now left|].
      left. now apply in_map.
    + contradiction.
  - rewrite get_users_rows. intros Hx. left. now apply in_map.
  - rewrite get_user_rows. intros Hx. left. now apply in_map.
  - destruct (update_user_cases w uid user)
      as [[e [_ ->]] | [[r [_ [_ [_ ->]]]] | [r [_ [_ [_ [-> _]]]]]]];
      intros Hx; left; try now apply in_map.
    rewrite <- (update_rows_ids uid user). now apply in_map.
  - destruct (delete_user_cases w uid) as [[e [_ ->]] | [r [_ [_ ->]]]];
      intros Hx; left; apply in_map; [assumption|].
    now apply delete_rows_In in Hx.
Qed.

(** Along a run the rows of the table are the initial ones and those
    whose creation was reported. *)
Lemma run_rows (cs : list call) (w : world) :
  no_faults w ->
  forall x, In x (rows (fst (run cs w))) ->
    In (id x) (map id (rows w)) \/ In (id x) (issued cs (snd (run cs w))).
Proof.
  revert w. induction cs as [|c cs IH]; intros w Hf x.
  - simpl. intros Hx. left. now apply in_map.
  - rewrite run_cons. cbn [fst snd]. intros Hx.
    rewrite issued_cons, in_app_iff.
    destruct (IH _ (exec_no_faults c w Hf) x Hx) as [Hin|Hin]; [|auto].
    apply in_map_iff in Hin as [y [Ey Hy]]. rewrite <- Ey.
    destruct (exec_rows c w Hf y Hy); auto.
Qed.

(** C4, as the code has it: reading an id that is an integer of the
    engine and that the store never handed out (it is the id of no initial
    row and of no successful creation since) is answered 404; and reading
    such an id after asking for its deletion is answered 404. *)
Theorem unknown_id_not_found :
  (forall cs w user_id,
     ~ In user_id (map id (rows w)) -> no_faults w ->
     sqlite_int user_id = true ->
     ~ In user_id (issued cs (snd (run cs w))) ->
     snd (exec (GetUser user_id) (fst (run cs w)))
     = mkResponse 404 (detail_json "User not found")) /\
  (forall w user_id,
     no_faults w ->
     sqlite_int user_id = true ->
     snd (exec (GetUser user_id) (fst (exec (DeleteUser user_id) w)))
     = mkResponse 404 (detail_json "User not found")).
Proof.
  split.
  - intros cs w user_id Hinit Hf Hrange Hnot.
    pose proof (run_no_faults cs w Hf) as Hf'.
    pose proof (run_rows cs w Hf) as Hrows.
    unfold exec at 1. rewrite snd_serve.
    rewrite get_user_answers by assumption.
    destruct (first_by_id user_id (rows (fst (run cs w)))) as [r|] eqn:Hq;
      [|reflexivity].
    exfalso. pose proof (first_by_id_has_id _ _ _ Hq) as Hid.
    apply first_by_id_In in Hq.
    destruct (Hrows r Hq) as [H|H]; rewrite Hid in H; contradiction.
  - intros w user_id Hf Hrange.
    pose proof (exec_no_faults (DeleteUser user_id) w Hf) as Hf'.
    unfold exec at 1. rewrite snd_serve.
    rewrite get_user_answers by assumption.
    unfold exec. rewrite fst_serve.
    destruct (delete_user_cases w user_id) as [[e [He Hr]] | [r [_ [_ ->]]]].
    + revert He Hr.
      rewrite delete_user_answers by assumption.
      destruct (first_by_id user_id (rows w)) eqn:Hq; [discriminate|].
      cbn [fst snd rows sent]. intros _ _. now rewrite Hq.
    + now rewrite delete_rows_first.
Qed.

Lemma unknown_id_not_found_witness :
  snd (exec (GetUser 999) (fst (run [CreateUser john_doe] empty_world)))
  = mkResponse 404 (detail_json "User not found") /\
  snd (exec (GetUser 2) (fst (exec (DeleteUser 2) two_users)))
  = mkResponse 404 (detail_json "User not found").
Proof.
  split.
  - apply (proj1 unknown_id_not_found [CreateUser john_doe] empty_world 999).
    + simpl. tauto.
    + reflexivity.
    + reflexivity.
    + simpl. intros [H|[]]. discriminate.
  - apply (proj2 unknown_id_not_found two_users 2); reflexivity.
Defined.

(** The claim as worded fails for an id that is no integer of the engine:
    the driver does not bind it, and the answer is 500, not 404. *)
Lemma unbound_id_is_500 :
  ~ In 9223372036854775808 (map id (rows empty_world)) /\
  snd (exec (GetUser 9223372036854775808) empty_world)
  = mkResponse 500 (plain_text "Internal Server Error") /\
  snd (exec (GetUser 9223372036854775808)
         (fst (exec (DeleteUser 9223372036854775808) empty_world)))
  = mkResponse 500 (plain_text "Internal Server Error").
Proof.
  split; [simpl; tauto|]. split; reflexivity.
Qed.

(** ** Creation order and rowid order *)




(** ** Failures of the engine *)

Ltac schedule w :=
  let t := fresh "t" in
  let time := fresh "time" in
  let fs := fresh "fs" in
  let n := fresh "n" in
  let random := fresh "random" in
  destruct w as [t Ht time fs n random];
  destruct fs as [|[|] [|[|] [|[|] fs]]].

Ltac count_statements :=
  cbn [fst snd round_trips faults rows clock randomness utcnow sent with_rows tl
       negb andb];
  rewrite ?Nat.sub_diag, ?sub_1, ?sub_2, ?sub_3; cbn [firstn existsb orb].

Ltac settle := count_statements; try reflexivity; try discriminate.

Ltac case_on_table :=
  match goal with
  | |- context [sqlite_int ?z] => destruct (sqlite_int z)
  | |- context [unchanged ?r ?u] => destruct (unchanged r u)
  | |- context [new_rowid ?w] => destruct (new_rowid w)
  | |- context [first_by_id ?pk ?l] => destruct (first_by_id pk l)
  | |- context [email_taken_by_other ?pk ?e ?l] =>
      destruct (email_taken_by_other pk e l)
  | |- context [email_taken ?e ?l] => destruct (email_taken e l)
  | |- context [String.eqb ?a ?b] => destruct (String.eqb a b)
  | |- context [Z.eqb ?a ?b] => destruct (Z.eqb a b)
  end.

Ltac unfold_handlers :=
  unfold exec, serve, create_user, get_users, get_user, update_user,
    delete_user, try_except, bind, commit_add, commit_update, commit_delete,
    refresh, query_first, query_offset_limit, bind, round_trip, ret, raise.

Ltac by_schedule w := schedule w; repeat (settle; case_on_table); settle.

Lemma create_user_failure (user : UserCreate) (w : world) :
  statement_failed w (fst (create_user user w)) = true ->
  snd (create_user user w) = inl (HTTPException 400 "Failed to create user").
Proof. unfold statement_failed. unfold_handlers. by_schedule w. Qed.

Lemma get_users_failure (skip limit : Z) (w : world) :
  statement_failed w (fst (get_users skip limit w)) = true ->
  snd (get_users skip limit w) = inl OperationalError.
Proof. unfold statement_failed. unfold_handlers. by_schedule w. Qed.

Lemma get_user_failure (user_id : Z) (w : world) :
  statement_failed w (fst (get_user user_id w)) = true ->
  snd (get_user user_id w) = inl OperationalError.
Proof. unfold statement_failed. unfold_handlers. by_schedule w. Qed.

Lemma delete_user_failure (user_id : Z) (w : world) :
  statement_failed w (fst (delete_user user_id w)) = true ->
  snd (delete_user user_id w) = inl OperationalError.
Proof. unfold statement_failed. unfold_handlers. by_schedule w. Qed.

Lemma update_user_failure (user_id : Z) (user : UserCreate) (w : world) :
  statement_failed w (fst (update_user user_id user w)) = true ->
  snd (update_user user_id user w) = inl OperationalError.
Proof. unfold statement_failed. unfold_handlers. by_schedule w. Qed.

(** C7, as the code has it: when the engine fails a statement of a
    request, [create_user] catches the failure and answers 400 with its
    fixed detail, as it does for a duplicate email; in the four other
    handlers the failure is not caught and the server answers its plain
    500. *)
Theorem engine_failure_status (c : call) (w : world) :
  (statement_failed w (fst (exec c w)) = true ->
   snd (exec c w)
   = match c with
     | CreateUser _ => mkResponse 400 (detail_json "Failed to create user")
     | _ => mkResponse 500 (plain_text "Internal Server Error")
     end) /\
  (forall user,
     In (uc_email user) (map email (rows w)) ->
     snd (exec (CreateUser user) w)
     = mkResponse 400 (detail_json "Failed to create user")).
Proof.
  split.
  - destruct c as [user|skip limit|uid|uid user|uid]; unfold exec;
      rewrite fst_serve, snd_serve; intros H.
    + now rewrite create_user_failure.
    + now rewrite get_users_failure.
    + now rewrite get_user_failure.
    + now rewrite update_user_failure.
    + now rewrite delete_user_failure.
  - intros user Hin. apply email_taken_In in Hin.
    destruct (create_user_taken w user Hin) as [w' [Hc _]].
    unfold exec. now rewrite snd_serve, Hc.
Qed.

Lemma engine_failure_status_witness :
  snd (exec (GetUser 1) (failing two_users))
  = mkResponse 500 (plain_text "Internal Server Error") /\
  snd (exec (CreateUser jane_doe) (failing two_users))
  = mkResponse 400 (detail_json "Failed to create user") /\
  snd (exec (CreateUser john_doe) two_users)
  = mkResponse 400 (detail_json "Failed to create user").
Proof.
  split; [|split].
  - apply (proj1 (engine_failure_status (GetUser 1) (failing two_users))).
    reflexivity.
  - apply (proj1 (engine_failure_status (CreateUser jane_doe) (failing two_users))).
    reflexivity.
  - apply (proj2 (engine_failure_status (CreateUser john_doe) two_users) john_doe).
    simpl. now left.
Defined.

(** The claim as worded fails in [create_user]: the engine fails the
    INSERT of a payload whose email is free, and the answer is 400, not
    500. *)
Lemma create_failure_is_400 :
  ~ In (uc_email jane_doe) (map email (rows (failing two_users))) /\
  commit_add jane_doe (failing two_users) = (sent (failing two_users), inl OperationalError) /\
  snd (exec (CreateUser jane_doe) (failing two_users))
  = mkResponse 400 (detail_json "Failed to create user") /\
  status_code (snd (exec (CreateUser jane_doe) (failing two_users))) <> 500.
Proof.
  split; [simpl; intuition discriminate|].
  split; [reflexivity|]. split; [reflexivity | discriminate].
Qed.

(** ** Listing *)




(** ** Validation *)















(** ** A taken email on update *)



(** ** Reads *)

(** C10: reading one record or listing records leaves the table as it
    is, whether the read returns, answers 404 or fails. *)
Theorem reads_leave_table (w : world) (user_id skip limit : Z) :
  rows (fst (get_user user_id w)) = rows w /\
  rows (fst (get_users skip limit w)) = rows w /\
  rows (fst (exec (GetUser user_id) w)) = rows w /\
  rows (fst (exec (GetUsers skip limit) w)) = rows w.
Proof.
  unfold exec. rewrite !fst_serve.
  repeat split; (apply get_user_rows || apply get_users_rows).
Qed.

(** ** The tables the store goes through *)

(** An update that is written changes the email to one that no other row
    has. *)
Lemma written_email_free (t : list User) (user_id : Z) (user : UserCreate)
    (r : User) :
  NoDup (map email t) ->
  first_by_id user_id t = Some r ->
  String.eqb (email r) (uc_email user) = true \/
  email_taken_by_other user_id (uc_email user) t = false ->
  email_taken_by_other user_id (uc_email user) t = false.
Proof.
  intros Hnd Hq [He | He]; [|exact He].
  apply String.eqb_eq in He. rewrite <- He.
  rewrite <- (first_by_id_has_id _ _ _ Hq).
  apply own_email_free; [assumption|]. now apply first_by_id_In in Hq.
Qed.

(** Every call keeps the rowids ascending and the emails distinct: the
    states the store goes through are the well formed ones. *)
Lemma exec_well_formed (c : call) (w : world) :
  well_formed (rows w) -> well_formed (rows (fst (exec c w))).
Proof.
  intros [Ha Hnd].
  destruct c as [user|skip limit|uid|uid user|uid]; unfold exec;
    rewrite fst_serve.
  - destruct (create_user_cases user w)
      as [[w' [-> [Hr _]]] | [pk [Hpk [He [_ [-> _]]]]]].
    + cbn [fst]. rewrite Hr. now split.
    + split.
      * apply ascending_place; [assumption|]. cbn [id].
        now apply new_rowid_unused.
      * apply NoDup_emails_place; [assumption|]. cbn [email].
        now apply email_taken_dec.
  - rewrite get_users_rows. now split.
  - rewrite get_user_rows. now split.
  - destruct (update_user_cases w uid user)
      as [[e [_ ->]] | [[r [_ [_ [_ ->]]]] | [r [Hq [_ [He [-> _]]]]]]];
      try (now split).
    split; [now rewrite update_rows_ids|].
    apply update_rows_emails; try assumption.
    exact (written_email_free _ _ _ _ Hnd Hq He).
  - destruct (delete_user_cases w uid) as [[e [_ ->]] | [r [_ [_ ->]]]];
      [now split|].
    split; [now apply ascending_filter | now apply NoDup_filter_email].
Qed.

Lemma run_well_formed (cs : list call) (w : world) :
  well_formed (rows w) -> well_formed (rows (fst (run cs w))).
Proof.
  revert w. induction cs as [|c cs IH]; intros w H; [exact H|].
  rewrite run_cons. cbn [fst]. now apply IH, exec_well_formed.
Qed.

Lemma exec_positive_ids (c : call) (w : world) :
  Forall (fun r => 0 < id r) (rows w) ->
  Forall (fun r => 0 < id r) (rows (fst (exec c w))).
Proof.
  intros Hp.
  destruct c as [user|skip limit|uid|uid user|uid]; unfold exec;
    rewrite fst_serve.
  - destruct (create_user_cases user w)
      as [[w' [-> [Hr _]]] | [pk [Hpk [He [_ [-> _]]]]]].
    + cbn [fst]. now rewrite Hr.
    + apply Forall_forall. intros x Hx. apply place_In in Hx as [-> | Hx].
      * cbn [id]. now apply (new_rowid_positive w).
      * revert x Hx. now apply Forall_forall.
  - now rewrite get_users_rows.
  - now rewrite get_user_rows.
  - destruct (update_user_cases w uid user)
      as [[e [_ ->]] | [[r [_ [_ [_ ->]]]] | [r [Hq [_ [He [-> _]]]]]]];
      try assumption.
    unfold update_rows. apply Forall_map.
    apply (Forall_impl _ (P := fun r => 0 < id r)); [|assumption].
    intros x Hx. now destruct (has_id uid x).
  - destruct (delete_user_cases w uid) as [[e [_ ->]] | [r [_ [_ ->]]]];
      [assumption|].
    unfold delete_rows. apply Forall_forall. intros x Hx.
    apply filter_In in Hx as [Hx _]. revert x Hx. now apply Forall_forall.
Qed.

(** X1: whatever requests are served on a store that starts empty, and
    whatever the engine fails, the records of the table have pairwise
    distinct ids, all at least 1 and ascending along the table, and
    pairwise distinct emails. *)
Theorem reachable_table (cs : list call) (w : world) :
  rows w = [] ->
  NoDup (map id (rows (fst (run cs w)))) /\
  NoDup (map email (rows (fst (run cs w)))) /\
  ascending (map id (rows (fst (run cs w)))) /\
  Forall (fun r => 1 <= id r) (rows (fst (run cs w))).
Proof.
  intros Hempty.
  assert (well_formed (rows (fst (run cs w))) /\
          Forall (fun r => 0 < id r) (rows (fst (run cs w)))) as [[Ha Hnd] Hp].
  { assert (well_formed (rows w) /\ Forall (fun r => 0 < id r) (rows w)) as H
      by (rewrite Hempty; repeat split; constructor).
    clear Hempty. revert w H. induction cs as [|c cs IH]; intros w [Hwf Hp].
    - now split.
    - rewrite run_cons. cbn [fst]. apply IH. split.
      + now apply exec_well_formed.
      + now apply exec_positive_ids. }
  repeat split; try assumption.
  - now apply ascending_NoDup.
  - apply (Forall_impl _ (P := fun r => 0 < id r)); [|assumption].
    intros r Hr. lia.
Qed.

Lemma reachable_table_witness :
  NoDup (map id (rows (fst (run [CreateUser john_doe; CreateUser jane_doe;
                                 DeleteUser 1; CreateUser john_doe] empty_world)))) /\
  NoDup (map email (rows (fst (run [CreateUser john_doe; CreateUser jane_doe;
                                    DeleteUser 1; CreateUser john_doe] empty_world)))) /\
  ascending (map id (rows (fst (run [CreateUser john_doe; CreateUser jane_doe;
                                     DeleteUser 1; CreateUser john_doe] empty_world)))) /\
  Forall (fun r => 1 <= id r)
         (rows (fst (run [CreateUser john_doe; CreateUser jane_doe;
                          DeleteUser 1; CreateUser john_doe] empty_world))).
Proof.
  apply (reachable_table [CreateUser john_doe; CreateUser jane_doe;
                          DeleteUser 1; CreateUser john_doe] empty_world).
  reflexivity.
Defined.

(** ** Status codes *)

Ltac all_paths w :=
  unfold_handlers; schedule w;
  repeat (count_statements; case_on_table); count_statements;
  cbn [respond status_code snd].

(** X2: the status codes each handler can answer.  [create_user] answers
    200 or 400 and nothing else; listing answers 200 or 500; reading,
    updating and deleting answer 200, 404 or 500.  When the engine answers
    and the numbers sent are integers of the engine, listing always
    answers 200, reading and deleting answer 200 or 404. *)
Theorem status_codes (c : call) (w : world) :
  match c with
  | CreateUser _ =>
      status_code (snd (exec c w)) = 200 \/ status_code (snd (exec c w)) = 400
  | GetUsers _ _ =>
      status_code (snd (exec c w)) = 200 \/ status_code (snd (exec c w)) = 500
  | _ =>
      status_code (snd (exec c w)) = 200 \/ status_code (snd (exec c w)) = 404 \/
      status_code (snd (exec c w)) = 500
  end /\
  (no_faults w ->
   match c with
   | GetUsers skip limit =>
       sqlite_int skip = true -> sqlite_int limit = true ->
       status_code (snd (exec c w)) = 200
   | GetUser user_id | DeleteUser user_id =>
       sqlite_int user_id = true ->
       status_code (snd (exec c w)) = 200 \/ status_code (snd (exec c w)) = 404
   | _ => True
   end).
Proof.
  split.
  - destruct c as [user|skip limit|uid|uid user|uid]; all_paths w; auto.
  - intros Hf.
    destruct c as [user|skip limit|uid|uid user|uid]; try exact I;
      unfold exec; rewrite snd_serve.
    + intros Hs Hl. now rewrite get_users_answers.
    + intros Hu.
      rewrite get_user_answers by assumption.
      cbn [snd]. destruct (first_by_id uid (rows w)); auto.
    + intros Hu.
      rewrite delete_user_answers by assumption.
      destruct (first_by_id uid (rows w)); auto.
Qed.

Lemma status_codes_witness :
  status_code (snd (exec (GetUsers 0 100) two_users)) = 200 /\
  (status_code (snd (exec (DeleteUser 7) two_users)) = 200 \/
   status_code (snd (exec (DeleteUser 7) two_users)) = 404).
Proof.
  split.
  - apply (proj2 (status_codes (GetUsers 0 100) two_users));
      reflexivity.
  - apply (proj2 (status_codes (DeleteUser 7) two_users)); reflexivity.
Defined.

(** X3: when the engine answers and the id sent is an integer of the
    engine, reading, updating or deleting an id is answered 404 exactly
    when no record has that id; and then the answer is the detail "User
    not found" and the table is left as it is. *)
Theorem not_found_iff_absent (w : world) (user_id : Z) (user : UserCreate) :
  no_faults w ->
  sqlite_int user_id = true ->
  (status_code (snd (exec (GetUser user_id) w)) = 404
   <-> ~ In user_id (map id (rows w))) /\
  (status_code (snd (exec (UpdateUser user_id user) w)) = 404
   <-> ~ In user_id (map id (rows w))) /\
  (status_code (snd (exec (DeleteUser user_id) w)) = 404
   <-> ~ In user_id (map id (rows w))) /\
  (~ In user_id (map id (rows w)) ->
   snd (exec (UpdateUser user_id user) w)
   = mkResponse 404 (detail_json "User not found") /\
   snd (exec (DeleteUser user_id) w)
   = mkResponse 404 (detail_json "User not found") /\
   rows (fst (exec (UpdateUser user_id user) w)) = rows w /\
   rows (fst (exec (DeleteUser user_id) w)) = rows w).
Proof.
  intros Hf Hrange. pose proof (first_by_id_None user_id (rows w)) as Hnone.
  unfold exec, serve.
  rewrite get_user_answers, update_user_answers, delete_user_answers
    by assumption.
  destruct (first_by_id user_id (rows w)) as [r|] eqn:Hq.
  - assert (In user_id (map id (rows w))) as Hin.
    { rewrite <- (first_by_id_has_id _ _ _ Hq).
      apply in_map. now apply first_by_id_In in Hq. }
    destruct (unchanged r user);
      [|destruct (negb (age r =? uc_age user) && negb (sqlite_int (uc_age user)));
        [|destruct (negb (String.eqb (email r) (uc_email user))
                    && email_taken_by_other user_id (uc_email user) (rows w))]];
      cbn [snd respond status_code];
      repeat split; try discriminate; try contradiction;
      intros H; exfalso; now apply H.
  - assert (~ In user_id (map id (rows w))) as Hnot by now apply Hnone.
    cbn [fst snd respond status_code rows sent].
    repeat split; auto.
Qed.

Lemma not_found_iff_absent_witness :
  (status_code (snd (exec (GetUser 999) two_users)) = 404
   <-> ~ In 999 (map id (rows two_users))) /\
  (status_code (snd (exec (UpdateUser 999 jane_doe) two_users)) = 404
   <-> ~ In 999 (map id (rows two_users))) /\
  (status_code (snd (exec (DeleteUser 999) two_users)) = 404
   <-> ~ In 999 (map id (rows two_users))) /\
  (~ In 999 (map id (rows two_users)) ->
   snd (exec (UpdateUser 999 jane_doe) two_users)
   = mkResponse 404 (detail_json "User not found") /\
   snd (exec (DeleteUser 999) two_users)
   = mkResponse 404 (detail_json "User not found") /\
   rows (fst (exec (UpdateUser 999 jane_doe) two_users)) = rows two_users /\
   rows (fst (exec (DeleteUser 999) two_users)) = rows two_users).
Proof.
  apply (not_found_iff_absent two_users 999 jane_doe); reflexivity.
Defined.

(** ** Delete and update, when the engine answers *)

(** X4: when the engine answers, deleting the id of a stored record
    answers 200 with the message "User deleted successfully"; the table
    loses that record and no other, the remaining records keep their
    order, and deleting the same id again answers 404. *)
Theorem delete_removes_record (w : world) (user_id : Z) (r : User) :
  no_faults w ->
  ascending (map id (rows w)) ->
  first_by_id user_id (rows w) = Some r ->
  snd (exec (DeleteUser user_id) w)
  = mkResponse 200 (message_json "User deleted successfully") /\
  rows (fst (exec (DeleteUser user_id) w))
  = filter (fun x => negb (id x =? user_id)) (rows w) /\
  (forall x, In x (rows (fst (exec (DeleteUser user_id) w)))
             <-> In x (rows w) /\ x <> r) /\
  S (List.length (rows (fst (exec (DeleteUser user_id) w)))) = List.length (rows w) /\
  snd (exec (DeleteUser user_id) (fst (exec (DeleteUser user_id) w)))
  = mkResponse 404 (detail_json "User not found").
Proof.
  intros Hf Ha Hq.
  pose proof (first_by_id_has_id _ _ _ Hq) as Hid.
  pose proof (first_by_id_In _ _ _ Hq) as Hin.
  pose proof (stored_id_in_range _ _ _ Hq) as Hrange.
  unfold exec, serve. rewrite delete_user_answers by assumption. rewrite Hq.
  cbn [fst snd respond]. rewrite (rows_deleted user_id w).
  split; [reflexivity|]. split; [reflexivity|]. split; [|split].
  - intros x. rewrite delete_rows_In. split.
    + intros [Hx Hne]. split; [assumption|]. intros ->. contradiction.
    + intros [Hx Hne]. split; [assumption|]. intros E. apply Hne.
      apply (ascending_unique (rows w)); auto. congruence.
  - rewrite <- Hid. now apply delete_rows_length.
  - rewrite delete_user_answers
      by (try apply with_rows_no_faults; try do 2 apply sent_no_faults; assumption).
    rewrite (rows_deleted user_id w). now rewrite delete_rows_first.
Qed.

Lemma delete_removes_record_witness :
  snd (exec (DeleteUser 1) two_users)
  = mkResponse 200 (message_json "User deleted successfully") /\
  rows (fst (exec (DeleteUser 1) two_users))
  = filter (fun x => negb (id x =? 1)) (rows two_users) /\
  (forall x, In x (rows (fst (exec (DeleteUser 1) two_users)))
             <-> In x (rows two_users) /\ x <> john) /\
  S (List.length (rows (fst (exec (DeleteUser 1) two_users))))
  = List.length (rows two_users) /\
  snd (exec (DeleteUser 1) (fst (exec (DeleteUser 1) two_users)))
  = mkResponse 404 (detail_json "User not found").
Proof.
  apply (delete_removes_record two_users 1 john).
  - reflexivity.
  - simpl. repeat split; try tauto. intros y [<-|[]]. lia.
  - reflexivity.
Defined.


Lemma unchanged_refl (r : User) :
  unchanged r (mkUserCreate (name r) (email r) (age r)) = true.
Proof.
  unfold unchanged. cbn [uc_name uc_email uc_age].
  now rewrite !String.eqb_refl, Z.eqb_refl.
Qed.








(** X7: a record can be sent back as it was read.  When the engine
    answers and the table is well formed, the body that GET /users/{id}
    returns, sent to PUT /users/{id}, passes validation (the members [id]
    and [created_at] are ignored), is answered 200 with the same record,
    and leaves the table as it is. *)
Theorem put_back_what_get_returned (lax_int : json -> option Z)
    (isoformat : Z -> string) (w : world) (user_id : Z) (r : User) :
  no_faults w ->
  well_formed (rows w) ->
  first_by_id user_id (rows w) = Some r ->
  snd (exec (GetUser user_id) w) = mkResponse 200 (user_json (model_validate r)) /\
  validate_UserCreate lax_int (json_of_response isoformat (model_validate r))
  = Some (mkUserCreate (name r) (email r) (age r)) /\
  snd (app lax_int
         (PUT_users_id user_id (json_of_response isoformat (model_validate r))) w)
  = mkResponse 200 (user_json (model_validate r)) /\
  rows (fst (app lax_int
               (PUT_users_id user_id
                  (json_of_response isoformat (model_validate r))) w))
  = rows w.
Proof.
  intros Hf [Ha Hnd] Hq.
  pose proof (stored_id_in_range _ _ _ Hq) as Hrange.
  split.
  { unfold exec, serve. rewrite get_user_answers by assumption. now rewrite Hq. }
  assert (validate_UserCreate lax_int (json_of_response isoformat (model_validate r))
          = Some (mkUserCreate (name r) (email r) (age r))) as Hv by reflexivity.
  split; [exact Hv|].
  unfold app. rewrite Hv. unfold exec, serve.
  rewrite update_user_answers by assumption. rewrite Hq, unchanged_refl.
  now cbn [fst snd respond rows sent].
Qed.

Lemma put_back_what_get_returned_witness :
  snd (exec (GetUser 1) two_users) = mkResponse 200 (user_json (model_validate john)) /\
  validate_UserCreate lax_int_digits
    (json_of_response (fun _ => "2023-11-14T22:13:20") (model_validate john))
  = Some (mkUserCreate (name john) (email john) (age john)) /\
  snd (app lax_int_digits
         (PUT_users_id 1 (json_of_response (fun _ => "2023-11-14T22:13:20")
                            (model_validate john))) two_users)
  = mkResponse 200 (user_json (model_validate john)) /\
  rows (fst (app lax_int_digits
               (PUT_users_id 1 (json_of_response (fun _ => "2023-11-14T22:13:20")
                                  (model_validate john))) two_users))
  = rows two_users.
Proof.
  apply (put_back_what_get_returned lax_int_digits
           (fun _ => "2023-11-14T22:13:20") two_users 1 john).
  - reflexivity.
  - split.
    + simpl. repeat split; try tauto. intros y [<-|[]]. lia.
    + simpl. repeat constructor; simpl; intuition discriminate.
  - reflexivity.
Defined.

(** ** Creation, when the engine answers *)















(** ** Pages *)

Lemma sqlite_int_between (z : Z) :
  0 <= z -> z <= max_rowid -> sqlite_int z = true.
Proof.
  intros H0 H1. unfold sqlite_int. apply andb_true_iff.
  split; apply Z.leb_le; [unfold max_rowid in *; lia | exact H1].
Qed.

(** X13: consecutive pages join.  When the engine answers, for a skip
    and two limits that are not negative, with sums that are integers of
    the engine, the page of [a] records from [skip] followed by the page
    of [b] records from [skip + a] is the page of [a + b] records from
    [skip]. *)
Theorem pages_join (w : world) (skip a b : Z) :
  no_faults w -> 0 <= skip -> 0 <= a -> 0 <= b ->
  skip + a <= max_rowid -> a + b <= max_rowid ->
  exists first second,
    snd (get_users skip a w) = inr first /\
    snd (get_users (skip + a) b w) = inr second /\
    snd (get_users skip (a + b) w) = inr (first ++ second).
Proof.
  intros Hf Hs Ha Hb Hsa Hab.
  rewrite !get_users_answers by (assumption || apply sqlite_int_between; lia).
  cbn [snd].
  eexists. eexists. split; [reflexivity|]. split; [reflexivity|].
  f_equal. rewrite <- map_app. f_equal.
  unfold sql_limit, sql_offset.
  destruct (Z.ltb_spec a 0); [lia|]. destruct (Z.ltb_spec b 0); [lia|].
  destruct (Z.ltb_spec (a + b) 0); [lia|].
  rewrite !Z2Nat.inj_add by assumption.
  rewrite <- skipn_then_skipn. symmetry. apply firstn_then_firstn.
Qed.

Lemma pages_join_witness :
  exists first second,
    snd (get_users 0 1 two_users) = inr first /\
    snd (get_users (0 + 1) 1 two_users) = inr second /\
    snd (get_users 0 (1 + 1) two_users) = inr (first ++ second).
Proof.
  apply (pages_join two_users 0 1 1);
    [reflexivity | lia | lia | lia | vm_compute; discriminate
     | vm_compute; discriminate].
Defined.

(** X14: a listing is a run of consecutive records of the table.  When
    the engine answers, whatever integers of the engine skip and limit
    are, the table is some records, then the records listed, in the order
    of the table, then some records; the records before are [skip] many
    unless the table is shorter (none when skip is negative), and records
    are left after the page only when the page has [limit] records. *)
Theorem page_is_segment (w : world) (skip limit : Z) :
  no_faults w ->
  sqlite_int skip = true ->
  sqlite_int limit = true ->
  exists before page after,
    rows w = before ++ page ++ after /\
    snd (exec (GetUsers skip limit) w)
    = mkResponse 200 (users_json (map model_validate page)) /\
    List.length before = Nat.min (Z.to_nat skip) (List.length (rows w)) /\
    (after = [] \/ Z.of_nat (List.length page) = limit).
Proof.
  intros Hf Hs Hl. unfold exec, serve. rewrite get_users_answers by assumption.
  cbn [snd respond]. unfold sql_limit, sql_offset.
  exists (firstn (Z.to_nat skip) (rows w)).
  destruct (Z.ltb_spec limit 0) as [Hneg|Hpos].
  - exists (skipn (Z.to_nat skip) (rows w)), [].
    rewrite app_nil_r, firstn_skipn, length_firstn. auto.
  - exists (firstn (Z.to_nat limit) (skipn (Z.to_nat skip) (rows w))),
           (skipn (Z.to_nat limit) (skipn (Z.to_nat skip) (rows w))).
    rewrite !firstn_skipn, length_firstn.
    repeat split.
    set (rest := skipn (Z.to_nat skip) (rows w)).
    destruct (Nat.le_gt_cases (List.length rest) (Z.to_nat limit)) as [Hle|Hgt].
    + left. now apply skipn_all2.
    + right. rewrite length_firstn. lia.
Qed.

Lemma page_is_segment_witness :
  exists before page after,
    rows two_users = before ++ page ++ after /\
    snd (exec (GetUsers 1 (-3)) two_users)
    = mkResponse 200 (users_json (map model_validate page)) /\
    List.length before = Nat.min (Z.to_nat 1) (List.length (rows two_users)) /\
    (after = [] \/ Z.of_nat (List.length page) = -3).
Proof.
  apply (page_is_segment two_users 1 (-3)); reflexivity.
Defined.

(** X18: GET /users/ without parameters returns the first 100 records of
    the table, in its order: all the records when there are at most 100,
    and never more than 100. *)
Theorem default_listing (lax_int : json -> option Z) (w : world) :
  no_faults w ->
  snd (app lax_int (GET_users None None) w)
  = mkResponse 200 (users_json (map model_validate (firstn 100 (rows w)))) /\
  (List.length (map model_validate (firstn 100 (rows w))) <= 100)%nat /\
  ((List.length (rows w) <= 100)%nat ->
   snd (app lax_int (GET_users None None) w)
   = mkResponse 200 (users_json (map model_validate (rows w)))).
Proof.
  intros Hf.
  assert (snd (app lax_int (GET_users None None) w)
          = mkResponse 200 (users_json (map model_validate (firstn 100 (rows w)))))
    as H.
  { unfold app, default, exec, serve.
    now rewrite get_users_answers by (assumption || reflexivity). }
  split; [exact H|]. split.
  - rewrite length_map. apply firstn_le_length.
  - intros Hlen. rewrite H. now rewrite firstn_all2.
Qed.

Lemma default_listing_witness :
  snd (app lax_int_digits (GET_users None None) two_users)
  = mkResponse 200 (users_json (map model_validate (firstn 100 (rows two_users)))) /\
  (List.length (map model_validate (firstn 100 (rows two_users))) <= 100)%nat /\
  ((List.length (rows two_users) <= 100)%nat ->
   snd (app lax_int_digits (GET_users None None) two_users)
   = mkResponse 200 (users_json (map model_validate (rows two_users)))).
Proof.
  apply (default_listing lax_int_digits two_users). reflexivity.
Defined.

(** ** How many records *)

(** X15: a request changes the number of records by one at most.  When
    the engine answers and the ids of the table ascend, a creation adds
    one record when it answers 200 and none when it answers 400; a
    deletion of an id that is an integer of the engine removes one record
    when it answers 200 and none when it answers 404; listing, reading
    and updating keep the number. *)
Theorem record_count (c : call) (w : world) :
  no_faults w ->
  ascending (map id (rows w)) ->
  match c with
  | CreateUser _ =>
      (status_code (snd (exec c w)) = 200 /\
       List.length (rows (fst (exec c w))) = S (List.length (rows w))) \/
      (status_code (snd (exec c w)) = 400 /\
       List.length (rows (fst (exec c w))) = List.length (rows w))
  | DeleteUser user_id =>
      sqlite_int user_id = true ->
      (status_code (snd (exec c w)) = 200 /\
       S (List.length (rows (fst (exec c w)))) = List.length (rows w)) \/
      (status_code (snd (exec c w)) = 404 /\
       List.length (rows (fst (exec c w))) = List.length (rows w))
  | _ => List.length (rows (fst (exec c w))) = List.length (rows w)
  end.
Proof.
  intros Hf Ha.
  destruct c as [user|skip limit|uid|uid user|uid]; unfold exec;
    rewrite ?fst_serve, ?snd_serve.
  - destruct (create_user_cases user w)
      as [[w' [-> [Hr _]]] | [pk [_ [_ [_ [-> [_ [-> | [_ Hnf]]]]]]]]].
    + right. cbn [fst snd respond status_code]. now rewrite Hr.
    + left. split; [reflexivity | apply place_length].
    + contradiction.
  - now rewrite get_users_rows.
  - now rewrite get_user_rows.
  - destruct (update_user_cases w uid user)
      as [[e [_ ->]] | [[r [_ [_ [_ ->]]]] | [r [_ [_ [_ [-> _]]]]]]];
      try reflexivity.
    unfold update_rows. apply length_map.
  - intros Hrange. rewrite delete_user_answers by assumption.
    destruct (first_by_id uid (rows w)) as [r|] eqn:Hq.
    + left. cbn [fst snd respond status_code].
      split; [reflexivity|]. rewrite (rows_deleted uid w).
      rewrite <- (first_by_id_has_id _ _ _ Hq).
      apply delete_rows_length; [assumption | now apply first_by_id_In in Hq].
    + right. now split.
Qed.

Lemma record_count_witness :
  (status_code (snd (exec (DeleteUser 2) two_users)) = 200 /\
   S (List.length (rows (fst (exec (DeleteUser 2) two_users))))
   = List.length (rows two_users)) \/
  (status_code (snd (exec (DeleteUser 2) two_users)) = 404 /\
   List.length (rows (fst (exec (DeleteUser 2) two_users)))
   = List.length (rows two_users)).
Proof.
  apply (record_count (DeleteUser 2) two_users).
  - reflexivity.
  - simpl. repeat split; try tauto. intros y [<-|[]]. lia.
  - reflexivity.
Defined.

(** X19: a deletion is all or nothing, whatever the engine does: either
    it answers 200 and the table has lost the records with that id, or it
    answers 404 or 500 and the table is as before. *)
Theorem delete_all_or_nothing (w : world) (user_id : Z) :
  (snd (exec (DeleteUser user_id) w)
   = mkResponse 200 (message_json "User deleted successfully") /\
   In user_id (map id (rows w)) /\
   rows (fst (exec (DeleteUser user_id) w)) = delete_rows user_id (rows w)) \/
  (status_code (snd (exec (DeleteUser user_id) w)) <> 200 /\
   rows (fst (exec (DeleteUser user_id) w)) = rows w).
Proof.
  unfold exec, serve, delete_user, bind.
  destruct (query_first_cases user_id w) as [-> | [-> | ->]].
  - right. split; [discriminate | reflexivity].
  - right. split; [discriminate | reflexivity].
  - destruct (first_by_id user_id (rows w)) as [r|] eqn:Hq.
    + pose proof (first_by_id_has_id _ _ _ Hq) as Hid.
      unfold commit_delete, bind.
      destruct (round_trip_cases (sent w)) as [-> | ->].
      * right. split; [discriminate | reflexivity].
      * left. cbn [fst snd respond ret]. rewrite Hid.
        split; [reflexivity|]. split; [|apply (rows_deleted user_id w)].
        rewrite <- Hid. apply in_map. now apply first_by_id_In in Hq.
    + right. split; [discriminate | reflexivity].
Qed.

(** ** A whole workflow *)



(** ** What the schema lets through *)



(** ** An error after the commit *)


